(** * SauceDemo page objects: sort-order and totals verification

    A shallow embedding of the page objects of the SauceDemo end-to-end suite
    ([InventoryPage], [BasePage], the sorting and checkout scenarios) together
    with the JavaScript primitives they are written with: UTF-16 strings,
    [String.prototype.trim] and [replace], [parseFloat], [parseInt], IEEE-754
    numbers, [Array.prototype.sort] and [JSON.stringify].

    The browser is represented by what the Playwright locators hand back: the
    [textContent()] of an element is a [string | null], modelled as
    [option jsstring]. *)

From Stdlib Require Import ZArith QArith Qabs Qround Lqa List Bool Lia String Ascii.
From stdpp Require Import base list gmap.

Open Scope Z_scope.

(* ===================================================================== *)
(** * JavaScript strings *)
(* ===================================================================== *)

Module JS.

(** A JavaScript string is a sequence of UTF-16 code units. *)
Definition char := Z.
Definition jsstring := list char.

(** Literals of the source, written as Rocq strings of ASCII characters. *)
Definition str (s : string) : jsstring :=
  map (fun a => Z.of_N (N_of_ascii a)) (list_ascii_of_string s).

(** Strict equality [===] on strings. *)
Fixpoint streq (a b : jsstring) : bool :=
  match a, b with
  | [], [] => true
  | x :: a', y :: b' => (x =? y) && streq a' b'
  | _, _ => false
  end.

(** ECMAScript [WhiteSpace] and [LineTerminator] code points, the characters
    removed by [trim] and skipped by [parseFloat] and [parseInt]. *)
Definition isWhiteSpace (c : char) : bool :=
  (c =? 9) || (c =? 10) || (c =? 11) || (c =? 12) || (c =? 13) || (c =? 32)
  || (c =? 160) || (c =? 5760) || ((8192 <=? c) && (c <=? 8202))
  || (c =? 8232) || (c =? 8233) || (c =? 8239) || (c =? 8287)
  || (c =? 12288) || (c =? 65279).

Fixpoint dropWhile {A} (p : A -> bool) (l : list A) : list A :=
  match l with
  | [] => []
  | x :: l' => if p x then dropWhile p l' else l
  end.

Fixpoint takeWhile {A} (p : A -> bool) (l : list A) : list A :=
  match l with
  | [] => []
  | x :: l' => if p x then x :: takeWhile p l' else []
  end.

Definition trimStart (s : jsstring) : jsstring := dropWhile isWhiteSpace s.
Definition trimEnd (s : jsstring) : jsstring :=
  rev (dropWhile isWhiteSpace (rev s)).

(** [String.prototype.trim]. *)
Definition trim (s : jsstring) : jsstring := trimEnd (trimStart s).

(** [pat] is a prefix of [s]. *)
Fixpoint startsWith (pat s : jsstring) : bool :=
  match pat, s with
  | [], _ => true
  | p :: pat', c :: s' => (p =? c) && startsWith pat' s'
  | _ :: _, [] => false
  end.

(** [s.replace(pat, rep)] with a string pattern: only the first occurrence of
    [pat] is replaced.  The replacement texts of the source are empty, so the
    [$]-patterns of replacement strings play no role. *)
Fixpoint replace (pat rep s : jsstring) : jsstring :=
  if startsWith pat s then rep ++ drop (length pat) s
  else match s with
       | [] => []
       | c :: s' => c :: replace pat rep s'
       end.

(** Truthiness of a [string | null]: [null] and the empty string are falsy. *)
Definition truthy (t : option jsstring) : bool :=
  match t with
  | Some (_ :: _) => true
  | _ => false
  end.

(** [t || ''] for a [string | null]. *)
Definition orEmpty (t : option jsstring) : jsstring :=
  match t with
  | Some s => s
  | None => []
  end.

(* ===================================================================== *)
(** * JavaScript numbers *)
(* ===================================================================== *)

(** A Number is an IEEE-754 binary64 value.  Every finite binary64 value is an
    integer multiple of [2^-1074], the smallest subnormal: [Fin m] stands for
    [m * 2^-1074].  The two zeros are one value here: [-0] and [+0] are told
    apart neither by subtraction's sign, nor by the relational operators, nor
    by [JSON.stringify], which are all that the page objects apply to
    numbers. *)
Inductive number :=
| NaN
| PInf
| NInf
| Fin (m : Z).

Definition unit_exp : Z := 1074.
Definition mant_bits : Z := 53.
(** [2^1024] in units of [2^-1074]: the first magnitude that overflows. *)
Definition overflow_threshold : Z := 2 ^ 2098.

(** The integer nearest to [a / b] for [0 <= a] and [0 < b], ties to even. *)
Definition roundNearestEven (a b : Z) : Z :=
  let q := a / b in
  let r := a mod b in
  match 2 * r ?= b with
  | Lt => q
  | Gt => q + 1
  | Eq => if Z.even q then q else q + 1
  end.

(** The Number nearest to the rational [n / d] units ([0 < d]), by IEEE
    round-to-nearest, ties-to-even: below [2^53] units the representable values
    are spaced one unit apart (subnormals and the first binade); above, a
    magnitude in [[2^(k+52), 2^(k+53))] is rounded to a multiple of [2^k]. *)
Definition roundRatio (n d : Z) : number :=
  let a := Z.abs n in
  let mag :=
    if a <? 2 ^ mant_bits * d then roundNearestEven a d
    else let k := Z.log2 (a / d) - (mant_bits - 1) in
         roundNearestEven a (d * 2 ^ k) * 2 ^ k in
  if overflow_threshold <=? mag
  then (if n <? 0 then NInf else PInf)
  else Fin (Z.sgn n * mag).

(** The Number for the exact decimal value [n * 10^e]. *)
Definition ofDecimal (n e : Z) : number :=
  if 0 <=? e
  then roundRatio (n * 10 ^ e * 2 ^ unit_exp) 1
  else roundRatio (n * 2 ^ unit_exp) (10 ^ (- e)).

Definition ofZ (n : Z) : number := ofDecimal n 0.

Definition isFinite (v : number) : bool :=
  match v with
  | Fin _ => true
  | _ => false
  end.

Definition isNaN (v : number) : bool :=
  match v with
  | NaN => true
  | _ => false
  end.

(** [a - b]. *)
Definition sub (a b : number) : number :=
  match a, b with
  | NaN, _ | _, NaN => NaN
  | PInf, PInf | NInf, NInf => NaN
  | PInf, _ | _, NInf => PInf
  | NInf, _ | _, PInf => NInf
  | Fin x, Fin y => roundRatio (x - y) 1
  end.

(** [a <= b] and [a >= b]; any comparison with [NaN] is false. *)
Definition leb (a b : number) : bool :=
  match a, b with
  | NaN, _ | _, NaN => false
  | NInf, _ | _, PInf => true
  | PInf, _ | _, NInf => false
  | Fin x, Fin y => x <=? y
  end.

Definition geb (a b : number) : bool := leb b a.

(** [a < b] and [a > b]. *)
Definition ltb (a b : number) : bool :=
  match a, b with
  | NaN, _ | _, NaN => false
  | PInf, _ | _, NInf => false
  | NInf, _ | _, PInf => true
  | Fin x, Fin y => x <? y
  end.

Definition gtb (a b : number) : bool := ltb b a.

(* ===================================================================== *)
(** * parseFloat and parseInt *)
(* ===================================================================== *)

Definition isDigit (c : char) : bool := (48 <=? c) && (c <=? 57).

(** The mathematical value of a run of decimal digits. *)
Definition digitsValue (ds : list char) : Z :=
  fold_left (fun acc c => acc * 10 + (c - 48)) ds 0.

(** A leading [-] (45) or [+] (43) and the rest of the text. *)
Definition splitSign (s : jsstring) : bool * jsstring :=
  match s with
  | c :: r =>
      if c =? 45 then (true, r)
      else if c =? 43 then (false, r)
      else (false, s)
  | [] => (false, s)
  end.

(** The value of an [ExponentPart] at the head of [s] ([e] or [E], an optional
    sign, at least one digit), and [0] when there is none. *)
Definition exponentPart (s : jsstring) : Z :=
  match s with
  | c :: r =>
      if (c =? 101) || (c =? 69) then
        let '(neg, r') := splitSign r in
        match takeWhile isDigit r' with
        | [] => 0
        | ds => if neg then - digitsValue ds else digitsValue ds
        end
      else 0
  | [] => 0
  end.

(** [parseFloat(s)]: leading white space is skipped, then the longest prefix
    that is a [StrDecimalLiteral] is converted; [NaN] when there is none.
    A [.] is code unit 46. *)
Definition parseFloat (s : jsstring) : number :=
  let '(neg, t) := splitSign (trimStart s) in
  if startsWith (str "Infinity") t then (if neg then NInf else PInf)
  else
    let ip := takeWhile isDigit t in
    let t1 := dropWhile isDigit t in
    let '(fp, t2) :=
      match t1 with
      | c :: r =>
          if c =? 46 then (takeWhile isDigit r, dropWhile isDigit r)
          else ([], t1)
      | [] => ([], t1)
      end in
    match ip ++ fp with
    | [] => NaN
    | ds =>
        let m := digitsValue ds in
        ofDecimal (if neg then - m else m)
                  (exponentPart t2 - Z.of_nat (length fp))
    end.

(** The value of a digit in a radix up to 36, [None] for any other code unit. *)
Definition digitOf (c : char) : option Z :=
  if (48 <=? c) && (c <=? 57) then Some (c - 48)
  else if (97 <=? c) && (c <=? 122) then Some (c - 87)
  else if (65 <=? c) && (c <=? 90) then Some (c - 55)
  else None.

Definition isRadixDigit (R : Z) (c : char) : bool :=
  match digitOf c with
  | Some d => d <? R
  | None => false
  end.

Definition radixValue (R : Z) (ds : list char) : Z :=
  fold_left (fun acc c => acc * R + default 0 (digitOf c)) ds 0.

(** [parseInt(s, radix)] for an integer [radix]. *)
Definition parseInt (s : jsstring) (radix : Z) : number :=
  let '(neg, t) := splitSign (trimStart s) in
  if (radix =? 0) || ((2 <=? radix) && (radix <=? 36)) then
    let hex := startsWith (str "0x") t || startsWith (str "0X") t in
    let strip := ((radix =? 0) || (radix =? 16)) && hex in
    let R := if radix =? 0 then (if hex then 16 else 10) else radix in
    let t' := if strip then drop 2 t else t in
    match takeWhile (isRadixDigit R) t' with
    | [] => NaN
    | ds => let m := radixValue R ds in ofZ (if neg then - m else m)
    end
  else NaN.

(* ===================================================================== *)
(** * Array.prototype.sort *)
(* ===================================================================== *)

(** The sign the sort reads off a comparator's result ([SortCompare]): a [NaN]
    result counts as [+0]. *)
Definition sortSign (v : number) : Z :=
  match v with
  | NaN => 0
  | PInf => 1
  | NInf => -1
  | Fin m => Z.sgn m
  end.

Section Sort.
Context {A : Type}.
Variable comparefn : A -> A -> number.

(** [x] goes in front of the first element it does not compare greater
    than, so it stays in front of the elements that follow it in the source
    array and tie with it. *)
Fixpoint insertSorted (x : A) (l : list A) : list A :=
  match l with
  | [] => [x]
  | y :: l' =>
      if sortSign (comparefn x y) <=? 0 then x :: l
      else y :: insertSorted x l'
  end.

(** [arr.sort(comparefn)].  ECMAScript requires a stable sort; the order it
    yields for a consistent comparator is therefore fixed by the language,
    and insertion from the right computes it. *)
Fixpoint sort (l : list A) : list A :=
  match l with
  | [] => []
  | x :: l' => insertSorted x (sort l')
  end.
End Sort.

(* ===================================================================== *)
(** * JSON.stringify of arrays of strings and of numbers *)
(* ===================================================================== *)

(** The text of an array is [[e1,e2,...]], with the elements' texts in order;
    it is kept here as the list of the elements' renderings.  A string renders
    as its quoted, escaped text, which determines the string; a finite number
    as its shortest round-trip decimal, which determines the number; and
    [NaN], [Infinity] and [-Infinity] all render as [null]. *)
Inductive json :=
| JNull
| JNumber (m : Z)
| JString (s : jsstring).

Definition jsonOfNumber (v : number) : json :=
  match v with
  | Fin m => JNumber m
  | _ => JNull
  end.

Definition stringifyNumbers (a : list number) : list json := map jsonOfNumber a.
Definition stringifyStrings (a : list jsstring) : list json := map JString a.

Definition json_eqb (x y : json) : bool :=
  match x, y with
  | JNull, JNull => true
  | JNumber m, JNumber n => m =? n
  | JString s, JString t => streq s t
  | _, _ => false
  end.

(** [===] on two such texts. *)
Fixpoint text_eqb (x y : list json) : bool :=
  match x, y with
  | [], [] => true
  | a :: x', b :: y' => json_eqb a b && text_eqb x' y'
  | _, _ => false
  end.

(* ===================================================================== *)
(** * String.prototype.includes and regular expressions *)
(* ===================================================================== *)

(** [s.includes(search)]: [search] occurs in [s] at some position. *)
Fixpoint includes (search s : jsstring) : bool :=
  startsWith search s
  || match s with
     | [] => false
     | _ :: s' => includes search s'
     end.

(** The line terminators, which [.] does not match. *)
Definition isLineTerminator (c : char) : bool :=
  (c =? 10) || (c =? 13) || (c =? 8232) || (c =? 8233).

(** The regular expressions the page objects and scenarios are written with:
    a class of code units, concatenation, alternation and iteration. *)
Inductive regex :=
| RFail
| REps
| RClass (p : char -> bool)
| RSeq (r1 r2 : regex)
| RAlt (r1 r2 : regex)
| RStar (r : regex).

(** [.], a literal character and a literal text. *)
Definition RDot : regex := RClass (fun c => negb (isLineTerminator c)).
Definition RChar (c : char) : regex := RClass (fun d => c =? d).
Fixpoint RLit (s : jsstring) : regex :=
  match s with
  | [] => REps
  | c :: s' => RSeq (RChar c) (RLit s')
  end.

Fixpoint nullable (r : regex) : bool :=
  match r with
  | RFail => false
  | REps => true
  | RClass _ => false
  | RSeq r1 r2 => nullable r1 && nullable r2
  | RAlt r1 r2 => nullable r1 || nullable r2
  | RStar _ => true
  end.

(** What is left of [r] to match once [c] has been read. *)
Fixpoint deriv (c : char) (r : regex) : regex :=
  match r with
  | RFail => RFail
  | REps => RFail
  | RClass p => if p c then REps else RFail
  | RSeq r1 r2 =>
      if nullable r1 then RAlt (RSeq (deriv c r1) r2) (deriv c r2)
      else RSeq (deriv c r1) r2
  | RAlt r1 r2 => RAlt (deriv c r1) (deriv c r2)
  | RStar r' => RSeq (deriv c r') (RStar r')
  end.

(** [r] matches the whole of [s]. *)
Fixpoint matches (r : regex) (s : jsstring) : bool :=
  match s with
  | [] => nullable r
  | c :: s' => matches (deriv c r) s'
  end.

(** [r.test(s)] for a pattern without anchors and flags: some part of [s]
    matches [r]. *)
Definition regexTest (r : regex) (s : jsstring) : bool :=
  let anything := RStar (RClass (fun _ => true)) in
  matches (RSeq anything (RSeq r anything)) s.

End JS.

Import JS.

(* ===================================================================== *)
(** * The page, as the locators read it *)
(* ===================================================================== *)

(** One [.inventory_item]: the [textContent()] of its name, description and
    price elements and the [data-test] attribute of its button. *)
Record item := {
  itemName : option jsstring;
  itemDesc : option jsstring;
  itemPrice : option jsstring;
  buttonDataTest : option jsstring
}.

(** The [.shopping_cart_badge] element. *)
Record badge := {
  isVisible : bool;
  badgeText : option jsstring
}.

(** What each locator of the page objects resolves to, in document order. *)
Record page := {
  productNames : list (option jsstring);
  productPrices : list (option jsstring);
  productItems : list item;
  cartBadge : badge
}.

(** [Product] of inventory-page.ts. *)
Record Product := {
  name : jsstring;
  description : jsstring;
  price : number;
  id : jsstring
}.

(** [arr.push(x)]. *)
Definition push {A} (arr : list A) (x : A) : list A := arr ++ [x].

(* ===================================================================== *)
(** * InventoryPage *)
(* ===================================================================== *)

Module InventoryPage.

(** The loop of [getProductNames] from index [i] on, [texts] being the
    elements not yet visited and [names] the array built so far. *)
Fixpoint getProductNames_loop (texts : list (option jsstring))
    (names : list jsstring) : list jsstring :=
  match texts with
  | [] => names
  | name :: rest =>
      getProductNames_loop rest
        (if truthy name then push names (trim (orEmpty name)) else names)
  end.

Definition getProductNames (p : page) : list jsstring :=
  getProductNames_loop (productNames p) [].

(** The loop of [getProductPrices]. *)
Fixpoint getProductPrices_loop (texts : list (option jsstring))
    (prices : list number) : list number :=
  match texts with
  | [] => prices
  | priceText :: rest =>
      getProductPrices_loop rest
        (if truthy priceText
         then push prices (parseFloat (replace (str "$") [] (orEmpty priceText)))
         else prices)
  end.

Definition getProductPrices (p : page) : list number :=
  getProductPrices_loop (productPrices p) [].

(** The loop of [getProducts]. *)
Fixpoint getProducts_loop (items : list item) (products : list Product)
    : list Product :=
  match items with
  | [] => products
  | it :: rest =>
      let name := orEmpty (itemName it) in
      let description := orEmpty (itemDesc it) in
      let priceText := orEmpty (itemPrice it) in
      let price := parseFloat (replace (str "$") [] priceText) in
      let dataTestAttr := orEmpty (buttonDataTest it) in
      let id := replace (str "add-to-cart-") [] dataTestAttr in
      getProducts_loop rest
        (push products
           {| name := name; description := description;
              price := price; id := id |})
  end.

Definition getProducts (p : page) : list Product :=
  getProducts_loop (productItems p) [].

Section Locale.
(** [a.localeCompare(b)] in the locale of the run. *)
Variable localeCompare : jsstring -> jsstring -> number.

Definition areProductsSortedAZ (p : page) : bool :=
  let names := getProductNames p in
  let sortedNames := sort (fun a b => localeCompare a b) names in
  text_eqb (stringifyStrings names) (stringifyStrings sortedNames).

Definition areProductsSortedZA (p : page) : bool :=
  let names := getProductNames p in
  let sortedNames := sort (fun a b => localeCompare b a) names in
  text_eqb (stringifyStrings names) (stringifyStrings sortedNames).
End Locale.

Definition areProductsSortedByPriceLowToHigh (p : page) : bool :=
  let prices := getProductPrices p in
  let sortedPrices := sort (fun a b => sub a b) prices in
  text_eqb (stringifyNumbers prices) (stringifyNumbers sortedPrices).

Definition areProductsSortedByPriceHighToLow (p : page) : bool :=
  let prices := getProductPrices p in
  let sortedPrices := sort (fun a b => sub b a) prices in
  text_eqb (stringifyNumbers prices) (stringifyNumbers sortedPrices).

End InventoryPage.

(* ===================================================================== *)
(** * BasePage *)
(* ===================================================================== *)

Module BasePage.

Definition getCartItemCount (p : page) : number :=
  let cartBadge := cartBadge p in
  if negb (isVisible cartBadge) then Fin 0
  else
    let badgeText := badgeText cartBadge in
    if truthy badgeText then parseInt (orEmpty badgeText) 10 else Fin 0.

(** [isDisplayed(expectedUrlPath?)], [currentUrl] being what
    [getCurrentUrl()] returns; an omitted argument is [None]. *)
Definition isDisplayed (currentUrl : jsstring)
    (expectedUrlPath : option jsstring) : bool :=
  if truthy expectedUrlPath
  then includes (orEmpty expectedUrlPath) currentUrl
  else true.

(** The file [takeScreenshot(name)] asks the browser to write: the template
    [./reports/screenshots/${name}.png]. *)
Definition screenshotPath (name : jsstring) : jsstring :=
  str "./reports/screenshots/" ++ name ++ str ".png".

End BasePage.

(* ===================================================================== *)
(** * LoginPage *)
(* ===================================================================== *)

Module LoginPage.

(** [isLoginSuccessful()], on the URL of the page. *)
Definition isLoginSuccessful (currentUrl : jsstring) : bool :=
  includes (str "/inventory.html") currentUrl.

(** The pattern [/.*inventory.html/]. *)
Definition inventoryUrlPattern : regex :=
  RSeq (RStar RDot)
       (RSeq (RLit (str "inventory")) (RSeq RDot (RLit (str "html")))).

(** [expectLoginSuccess()]: [expect(page).toHaveURL(/.*inventory.html/)] on
    the URL the page has settled on; [true] is a passing expectation.  The
    [beforeEach] of the sorting and checkout scenarios makes the same
    expectation. *)
Definition expectLoginSuccess (currentUrl : jsstring) : bool :=
  regexTest inventoryUrlPattern currentUrl.

End LoginPage.

(* ===================================================================== *)
(** * CartPage *)
(* ===================================================================== *)

(** One [.cart_item]: the [textContent()] of its name, description and price
    elements. *)
Record cartRow := {
  rowName : option jsstring;
  rowDesc : option jsstring;
  rowPrice : option jsstring
}.

(** What the locators of the cart page resolve to. *)
Record cart := {
  cartItems : list cartRow;
  itemNames : list (option jsstring)
}.

(** [CartItem] of cart.page.ts. *)
Record CartItem := {
  cartItemName : jsstring;
  cartItemDescription : jsstring;
  cartItemPrice : number;
  quantity : number
}.

Module CartPage.

(** The loop of [getCartItemNames]. *)
Fixpoint getCartItemNames_loop (texts : list (option jsstring))
    (names : list jsstring) : list jsstring :=
  match texts with
  | [] => names
  | name :: rest =>
      getCartItemNames_loop rest
        (if truthy name then push names (trim (orEmpty name)) else names)
  end.

Definition getCartItemNames (c : cart) : list jsstring :=
  getCartItemNames_loop (itemNames c) [].

(** The loop of [getCartItems]. *)
Fixpoint getCartItems_loop (rows : list cartRow) (items : list CartItem)
    : list CartItem :=
  match rows with
  | [] => items
  | row :: rest =>
      let name := orEmpty (rowName row) in
      let description := orEmpty (rowDesc row) in
      let priceText := orEmpty (rowPrice row) in
      let price := parseFloat (replace (str "$") [] priceText) in
      let quantity := ofZ 1 in
      getCartItems_loop rest
        (push items
           {| cartItemName := name; cartItemDescription := description;
              cartItemPrice := price; quantity := quantity |})
  end.

Definition getCartItems (c : cart) : list CartItem :=
  getCartItems_loop (cartItems c) [].

(** [getCartItemCount()] of the cart page: [cartItems.count()], the number of
    [.cart_item] elements as a Number. *)
Definition getCartItemCount (c : cart) : number :=
  ofZ (Z.of_nat (length (cartItems c))).

End CartPage.

(* ===================================================================== *)
(** * The sorting scenarios *)
(* ===================================================================== *)

Module SortingSpec.

(** [expect(received).toEqual(expected)] on two arrays of strings: the
    matcher's recursive equality asks for the same length and, index by
    index, the same string.  [true] is a passing expectation. *)
Fixpoint toEqual (received expected : list jsstring) : bool :=
  match received, expected with
  | [], [] => true
  | r :: received', e :: expected' => streq r e && toEqual received' expected'
  | _, _ => false
  end.

(** The comparison against the expected order in TC_01, TC_02, TC_03 and
    TC_04; [expected] is the entry of [SORT_ORDERS] the scenario names. *)
Definition matchesExpected (p : page) (expected : list jsstring) : bool :=
  let productNames := InventoryPage.getProductNames p in
  toEqual productNames expected.

(** [expect(received).toBe(expected)] on two [string | undefined] values:
    [Object.is]. *)
Definition toBe (received expected : option jsstring) : bool :=
  match received, expected with
  | None, None => true
  | Some r, Some e => streq r e
  | _, _ => false
  end.

(** [expect(received).toBeGreaterThan(expected)] and [toBeLessThan]; the
    matcher rejects a value that is not a number, here [undefined]. *)
Definition toBeGreaterThan (received expected : option number) : bool :=
  match received, expected with
  | Some r, Some e => gtb r e
  | _, _ => false
  end.

Definition toBeLessThan (received expected : option number) : bool :=
  match received, expected with
  | Some r, Some e => ltb r e
  | _, _ => false
  end.

(** The expectations of the four sorting scenarios on the page as it is
    after the sort option has been selected; a scenario passes when each of
    its expectations does.  The expected order is the entry of [SORT_ORDERS]
    the scenario names. *)
Section Scenarios.
Variable localeCompare : jsstring -> jsstring -> number.

Definition TC_01 (p : page) (ALPHABETICAL_ZA : list jsstring) : bool :=
  let productNames := InventoryPage.getProductNames p in
  let sortedZA := InventoryPage.areProductsSortedZA localeCompare p in
  sortedZA
  && toEqual productNames ALPHABETICAL_ZA
  && toBe (head productNames) (head ALPHABETICAL_ZA).

Definition TC_02 (p : page) (PRICE_HIGH_LOW : list jsstring) : bool :=
  let prices := InventoryPage.getProductPrices p in
  let productNames := InventoryPage.getProductNames p in
  let sortedByPriceHighLow := InventoryPage.areProductsSortedByPriceHighToLow p in
  sortedByPriceHighLow
  && toBeGreaterThan (head prices) (last prices)
  && toEqual productNames PRICE_HIGH_LOW
  && toBe (head productNames) (head PRICE_HIGH_LOW).

Definition TC_03 (p : page) (ALPHABETICAL_AZ : list jsstring) : bool :=
  let productNames := InventoryPage.getProductNames p in
  let sortedAZ := InventoryPage.areProductsSortedAZ localeCompare p in
  sortedAZ && toEqual productNames ALPHABETICAL_AZ.

Definition TC_04 (p : page) (PRICE_LOW_HIGH : list jsstring) : bool :=
  let prices := InventoryPage.getProductPrices p in
  let productNames := InventoryPage.getProductNames p in
  let sortedByPriceLowHigh := InventoryPage.areProductsSortedByPriceLowToHigh p in
  sortedByPriceLowHigh
  && toBeLessThan (head prices) (last prices)
  && toEqual productNames PRICE_LOW_HIGH.
End Scenarios.

End SortingSpec.

(* ===================================================================== *)
(** * The cart scenarios *)
(* ===================================================================== *)

Module CheckoutSpec.

(** [expect(received).toHaveLength(n)]. *)
Definition toHaveLength {A} (received : list A) (n : nat) : bool :=
  (length received =? n)%nat.

(** [expect(received).toContain(item)] on an array of strings: some element
    is strictly equal to [item]. *)
Definition toContain (received : list jsstring) (item : jsstring) : bool :=
  existsb (fun r => streq r item) received.

(** The expectations of TC_06 on the cart page, [CART_PRODUCTS] being the
    names that were added. *)
Definition TC_06 (c : cart) (CART_PRODUCTS : list jsstring) : bool :=
  let cartItemNames := CartPage.getCartItemNames c in
  toHaveLength cartItemNames (length CART_PRODUCTS)
  && forallb (fun productName => toContain cartItemNames productName)
             CART_PRODUCTS.

End CheckoutSpec.

(* ===================================================================== *)
(** * Arrays as objects: the store *)
(* ===================================================================== *)

(** JavaScript arrays are mutable objects handed around by reference:
    [push] and [sort] change the array they are called on, and [[...a]]
    allocates a new one.  The store maps the references allocated so far to
    the arrays' contents. *)
Module Store.

Definition ref := nat.

Section Heap.
Context {A : Type}.

(** A new array with contents [arr]; its reference is not yet in use. *)
Definition alloc (arr : list A) (h : gmap nat (list A))
    : ref * gmap nat (list A) :=
  let r := fresh (dom h) in (r, <[r := arr]> h).

Definition contents (r : ref) (h : gmap nat (list A)) : list A :=
  default [] (h !! r).

(** [a.push(x)]. *)
Definition pushTo (r : ref) (x : A) (h : gmap nat (list A))
    : gmap nat (list A) :=
  alter (fun arr => push arr x) r h.

(** [[...a]]. *)
Definition spread (r : ref) (h : gmap nat (list A))
    : ref * gmap nat (list A) :=
  alloc (contents r h) h.

(** [a.sort(comparefn)] sorts [a] in place and returns [a] itself. *)
Definition sortInPlace (comparefn : A -> A -> number) (r : ref)
    (h : gmap nat (list A)) : ref * gmap nat (list A) :=
  (r, alter (sort comparefn) r h).
End Heap.

End Store.

(* ===================================================================== *)
(** * The checks as asynchronous methods *)
(* ===================================================================== *)

(** The methods of the page object take no argument and are [async]: what
    they work on they ask of the browser, one [await] at a time.  A method
    body is written here as the requests it sends and what it does with each
    answer, over the store of arrays, step by step as in the source. *)
Module Live.
Import Store.

(** The locators the checks read through: [this.productNames], which is
    [page.locator('.inventory_item_name')], and [this.productPrices], which
    is [page.locator('.inventory_item_price')]. *)
Inductive locator := inventory_item_name | inventory_item_price.


(** The body of an [async] method: it returns [r], or awaits the answer to
    a request and goes on with it. *)
Inductive async (R : Type) : Type :=
| resolve (r : R)
| awaitCount (l : locator) (k : nat -> async R)
| awaitTextContent (l : locator) (i : nat) (k : option jsstring -> async R).
Arguments resolve {R} r.
Arguments awaitCount {R} l k.
Arguments awaitTextContent {R} l i k.

(** [const r = await m; ...f r...]. *)
Fixpoint andThen {R S} (m : async R) (f : R -> async S) : async S :=
  match m with
  | resolve r => f r
  | awaitCount l k => awaitCount l (fun n => andThen (k n) f)
  | awaitTextContent l i k => awaitTextContent l i (fun t => andThen (k t) f)
  end.

(** The loop of [getProductNames] at index [i], with [remaining] indices
    below [count] still to visit. *)
Fixpoint getProductNames_loop (remaining i : nat) (names : ref)
    (h : gmap nat (list jsstring)) : async (gmap nat (list jsstring)) :=
  match remaining with
  | O => resolve h
  | S remaining =>
      awaitTextContent inventory_item_name i (fun name =>
        getProductNames_loop remaining (S i) names
          (if truthy name then pushTo names (trim (orEmpty name)) h else h))
  end.

Definition getProductNames (h : gmap nat (list jsstring))
    : async (ref * gmap nat (list jsstring)) :=
  awaitCount inventory_item_name (fun count =>
    let '(names, h) := alloc [] h in
    andThen (getProductNames_loop count 0 names h)
            (fun h => resolve (names, h))).

(** The loop of [getProductPrices]. *)
Fixpoint getProductPrices_loop (remaining i : nat) (prices : ref)
    (h : gmap nat (list number)) : async (gmap nat (list number)) :=
  match remaining with
  | O => resolve h
  | S remaining =>
      awaitTextContent inventory_item_price i (fun priceText =>
        getProductPrices_loop remaining (S i) prices
          (if truthy priceText
           then pushTo prices
                  (parseFloat (replace (str "$") [] (orEmpty priceText))) h
           else h))
  end.

Definition getProductPrices (h : gmap nat (list number))
    : async (ref * gmap nat (list number)) :=
  awaitCount inventory_item_price (fun count =>
    let '(prices, h) := alloc [] h in
    andThen (getProductPrices_loop count 0 prices h)
            (fun h => resolve (prices, h))).

Section Locale.
Variable localeCompare : jsstring -> jsstring -> number.

Definition areProductsSortedAZ (h : gmap nat (list jsstring))
    : async (bool * gmap nat (list jsstring)) :=
  andThen (getProductNames h) (fun '(names, h) =>
    let '(copy, h) := spread names h in
    let '(sortedNames, h) :=
      sortInPlace (fun a b => localeCompare a b) copy h in
    resolve (text_eqb (stringifyStrings (contents names h))
                      (stringifyStrings (contents sortedNames h)), h)).

Definition areProductsSortedZA (h : gmap nat (list jsstring))
    : async (bool * gmap nat (list jsstring)) :=
  andThen (getProductNames h) (fun '(names, h) =>
    let '(copy, h) := spread names h in
    let '(sortedNames, h) :=
      sortInPlace (fun a b => localeCompare b a) copy h in
    resolve (text_eqb (stringifyStrings (contents names h))
                      (stringifyStrings (contents sortedNames h)), h)).
End Locale.

Definition areProductsSortedByPriceLowToHigh (h : gmap nat (list number))
    : async (bool * gmap nat (list number)) :=
  andThen (getProductPrices h) (fun '(prices, h) =>
    let '(copy, h) := spread prices h in
    let '(sortedPrices, h) := sortInPlace (fun a b => sub a b) copy h in
    resolve (text_eqb (stringifyNumbers (contents prices h))
                      (stringifyNumbers (contents sortedPrices h)), h)).

Definition areProductsSortedByPriceHighToLow (h : gmap nat (list number))
    : async (bool * gmap nat (list number)) :=
  andThen (getProductPrices h) (fun '(prices, h) =>
    let '(copy, h) := spread prices h in
    let '(sortedPrices, h) := sortInPlace (fun a b => sub b a) copy h in
    resolve (text_eqb (stringifyNumbers (contents prices h))
                      (stringifyNumbers (contents sortedPrices h)), h)).

(** The comparison of TC_01 with the expected order: the names are read
    (line 30) and compared with [toEqual] (line 37); [expected] is the
    reference of the shared [SORT_ORDERS] array. *)
Definition matchesExpected (expected : ref) (h : gmap nat (list jsstring))
    : async (bool * gmap nat (list jsstring)) :=
  andThen (getProductNames h) (fun '(productNames, h) =>
    resolve (SortingSpec.toEqual (contents productNames h)
                                 (contents expected h), h)).

(** The elements a locator matches on a page, as their text contents. *)
Definition texts (l : locator) (p : page) : list (option jsstring) :=
  match l with
  | inventory_item_name => productNames p
  | inventory_item_price => productPrices p
  end.


End Live.

(* ===================================================================== *)
(** * Totals: tax and total validation *)
(* ===================================================================== *)

Module TotalsVerifier.

(** Modelled from the spec: the [InvalidAmount] error of section 4.2 and the
    two outcomes of a call; the checkout page object that would raise it is
    not among the sources. *)
Inductive error := InvalidAmount.

Inductive result (A : Type) :=
| Ok (a : A)
| Err (e : error).
Arguments Ok {A} a.
Arguments Err {A} e.

(** Modelled from the spec: the guard of section 4.2 on a negative
    [MoneyAmount]. *)
Definition isNegative (x : Q) : bool := negb (Qle_bool 0 x).

(** Modelled from the spec: the rounding of section 4.2, "round half away
    from zero" to two decimal places; the checkout page object that computes
    the expected tax is not among the sources. *)
Definition roundHalfAwayFromZero2 (x : Q) : Q :=
  if Qle_bool 0 x
  then inject_Z (Qfloor (x * 100 + (1 # 2))) * (1 # 100)
  else - (inject_Z (Qfloor (- x * 100 + (1 # 2))) * (1 # 100)).

(** Modelled from the spec: the tolerance of [+-0.01] of sections 3 and 4.2. *)
Definition tolerance : Q := 1 # 100.

(** Modelled from the spec: [validateTax] of section 4.2.  The source only
    calls [checkoutOverviewPage.validateTaxCalculation()] in TC_08; the
    checkout page object that defines it is not among the sources. *)
Definition validateTax (subtotal observedTax rate : Q) : result bool :=
  if isNegative subtotal || isNegative observedTax then Err InvalidAmount
  else
    let expectedTax := roundHalfAwayFromZero2 (subtotal * rate) in
    Ok (Qle_bool (Qabs (expectedTax - observedTax)) tolerance).

(** Modelled from the spec: [validateTotal] of section 4.2.  The source only
    calls [checkoutOverviewPage.validateTotalCalculation()] in TC_08; the
    checkout page object that defines it is not among the sources. *)
Definition validateTotal (subtotal tax observedTotal : Q) : result bool :=
  if isNegative subtotal || isNegative tax || isNegative observedTotal
  then Err InvalidAmount
  else Ok (Qle_bool (Qabs ((subtotal + tax) - observedTotal)) tolerance).

End TotalsVerifier.

(* ===================================================================== *)
(** * Ordering predicates of the specification *)
(* ===================================================================== *)

(** Every adjacent pair [(i, i+1)] of [l] satisfies [R]. *)
Definition adjacentPairs {A} (R : A -> A -> Prop) (l : list A) : Prop :=
  forall (i : nat) (a b : A), l !! i = Some a -> l !! S i = Some b -> R a b.

(** The Numbers [-1], [0] and [1]. *)
Definition minusOne : number := Eval vm_compute in ofZ (-1).
Definition zero : number := Eval vm_compute in ofZ 0.
Definition one : number := Eval vm_compute in ofZ 1.

(** A collation to run the checks with: strings compared code unit by code
    unit, the result being [-1], [0] or [1]. *)
Fixpoint codeUnitCompare (a b : jsstring) : number :=
  match a, b with
  | [], [] => zero
  | [], _ :: _ => minusOne
  | _ :: _, [] => one
  | x :: a', y :: b' =>
      match x ?= y with
      | Lt => minusOne
      | Gt => one
      | Eq => codeUnitCompare a' b'
      end
  end.

(** A page showing the given names and prices, with an empty cart. *)
Definition pageOf (names prices : list string) : page :=
  {| productNames := map (fun s => Some (str s)) names;
     productPrices := map (fun s => Some (str s)) prices;
     productItems := [];
     cartBadge := {| isVisible := false; badgeText := None |} |}.

(** A text that [parseFloat] can read a number from: after leading white
    space and an optional sign it starts with [Infinity], with a digit, or
    with a [.] followed by a digit. *)
Definition hasNumericPrefix (s : jsstring) : bool :=
  let '(_, t) := splitSign (trimStart s) in
  startsWith (str "Infinity") t
  || match t with
     | c :: r =>
         isDigit c
         || ((c =? 46) && match r with
                          | d :: _ => isDigit d
                          | [] => false
                          end)
     | [] => false
     end.

(** The [Product] that [getProducts] builds from one item. *)
Definition productOf (it : item) : Product :=
  {| name := orEmpty (itemName it);
     description := orEmpty (itemDesc it);
     price := parseFloat (replace (str "$") [] (orEmpty (itemPrice it)));
     id := replace (str "add-to-cart-") [] (orEmpty (buttonDataTest it)) |}.

(** A page whose cart badge is shown with the given text. *)
Definition pageWithBadge (text : string) : page :=
  {| productNames := []; productPrices := []; productItems := [];
     cartBadge := {| isVisible := true; badgeText := Some (str text) |} |}.

(** A page with one product item, of the given price text. *)
Definition pageWithItem (priceText : option jsstring) : page :=
  {| productNames := []; productPrices := [];
     productItems :=
       [{| itemName := Some (str "Sauce Labs Onesie");
           itemDesc := Some (str "Rib snap infant onesie");
           itemPrice := priceText;
           buttonDataTest := Some (str "add-to-cart-sauce-labs-onesie") |}];
     cartBadge := {| isVisible := false; badgeText := None |} |}.

(** The page [p] showing the names [names] instead of its own: what the
    name elements hold once their texts have been normalized. *)
Definition withNames (p : page) (names : list jsstring) : page :=
  {| productNames := map Some names;
     productPrices := productPrices p;
     productItems := productItems p;
     cartBadge := cartBadge p |}.

(** The price texts of [p] as [getProductPrices] hands them to [parseFloat]:
    the non-empty ones, with the first [$] removed. *)
Definition normalizedPriceTexts (p : page) : list jsstring :=
  concat (map (fun t => if truthy t
                        then [replace (str "$") [] (orEmpty t)]
                        else [])
              (productPrices p)).

Definition withPriceTexts (p : page) (texts : list jsstring) : page :=
  {| productNames := productNames p;
     productPrices := map Some texts;
     productItems := productItems p;
     cartBadge := cartBadge p |}.

(** The number of [$] (code unit 36) in a text. *)
Definition dollars (t : jsstring) : nat := count_occ Z.eq_dec t 36.



(** One step of [getProductNames]: the name an element contributes. *)
Definition nameOf (t : option jsstring) : list jsstring :=
  if truthy t then [trim (orEmpty t)] else [].

(** One step of [getProductPrices]: the price an element contributes. *)
Definition priceOf (t : option jsstring) : list number :=
  if truthy t then [parseFloat (replace (str "$") [] (orEmpty t))] else [].

(** The order a sort with [comparefn] aims at: [x] may stand before [y]. *)
Definition mayPrecede {A} (comparefn : A -> A -> number) (x y : A) : Prop :=
  sortSign (comparefn x y) <= 0.

(** [x] and [y] tie under [comparefn]. *)
Definition tied {A} (comparefn : A -> A -> number) (x y : A) : bool :=
  sortSign (comparefn x y) =? 0.

(** What ECMAScript asks of [l.sort(comparefn)] when [comparefn] is a
    consistent comparator: [out] holds the elements of [l], in an order the
    comparator accepts, and elements that tie keep the order they had in
    [l]. *)
Definition stableSortOf {A} (comparefn : A -> A -> number) (l out : list A) : Prop :=
  Permutation out l
  /\ adjacentPairs (mayPrecede comparefn) out
  /\ forall x : A,
       List.filter (tied comparefn x) out = List.filter (tied comparefn x) l.

(** The text of a price as the site displays it: [$], the whole part, a [.]
    and the fraction. *)
Definition priceText (whole frac : jsstring) : jsstring :=
  36 :: whole ++ 46 :: frac.

(** The amount of such a price in units of its last digit. *)
Definition amountOf (a : jsstring * jsstring) : Z := digitsValue (a.1 ++ a.2).

(** A text at which a decimal number stops: it is empty or starts with a code
    unit that is neither a digit nor an exponent letter. *)
Definition stopsNumber (rest : jsstring) : bool :=
  match rest with
  | [] => true
  | c :: _ => negb (isDigit c) && negb (c =? 101) && negb (c =? 69)
  end.

(** A displayed amount with two fraction digits and at most 15 digits in
    all. *)
Definition displayedAmount (a : jsstring * jsstring) : Prop :=
  a.1 <> [] /\ forallb isDigit a.1 = true /\ forallb isDigit a.2 = true
  /\ length a.2 = 2%nat /\ (length (a.1 ++ a.2) <= 15)%nat.

(** The page [p] with its products listed in the opposite order. *)
Definition reversed (p : page) : page :=
  {| productNames := rev (productNames p);
     productPrices := rev (productPrices p);
     productItems := rev (productItems p);
     cartBadge := cartBadge p |}.

(* ===================================================================== *)
(** * Strings and texts *)
(* ===================================================================== *)

Lemma streq_eq (a b : jsstring) : streq a b = true <-> a = b.
Proof.
  revert b; induction a as [|x a IH]; intros [|y b]; simpl; try easy.
  rewrite andb_true_iff, Z.eqb_eq, IH. split.
  - intros [-> ->]; reflexivity.
  - intros E; injection E; auto.
Qed.

Lemma json_eqb_eq (x y : json) : json_eqb x y = true <-> x = y.
Proof.
  destruct x, y; simpl; try easy.
  - rewrite Z.eqb_eq. split; congruence.
  - rewrite streq_eq. split; congruence.
Qed.

Lemma text_eqb_eq (x y : list json) : text_eqb x y = true <-> x = y.
Proof.
  revert y; induction x as [|a x IH]; intros [|b y]; simpl; try easy.
  rewrite andb_true_iff, json_eqb_eq, IH. split.
  - intros [-> ->]; reflexivity.
  - intros E; injection E; auto.
Qed.

Lemma stringifyStrings_inj (a b : list jsstring) :
  stringifyStrings a = stringifyStrings b -> a = b.
Proof.
  unfold stringifyStrings. revert b.
  induction a as [|x a IH]; intros [|y b]; simpl; try easy.
  intros E; injection E as -> E'. f_equal; auto.
Qed.

(** On finite numbers the rendering loses nothing. *)
Lemma stringifyNumbers_finite_inj (a b : list number) :
  Forall (fun v => isFinite v = true) a ->
  stringifyNumbers a = stringifyNumbers b -> a = b.
Proof.
  unfold stringifyNumbers. intros Hfin; revert b.
  induction Hfin as [|x a Hx _ IH]; intros [|y b]; simpl; try easy.
  intros E; injection E as Exy E'. f_equal; auto.
  destruct x, y; simpl in *; congruence.
Qed.

Lemma strings_text_eqb (a b : list jsstring) :
  text_eqb (stringifyStrings a) (stringifyStrings b) = true <-> a = b.
Proof.
  rewrite text_eqb_eq. split; [apply stringifyStrings_inj | congruence].
Qed.

Lemma numbers_text_eqb (a b : list number) :
  Forall (fun v => isFinite v = true) a ->
  text_eqb (stringifyNumbers a) (stringifyNumbers b) = true <-> a = b.
Proof.
  intros Hfin. rewrite text_eqb_eq.
  split; [apply stringifyNumbers_finite_inj; assumption | congruence].
Qed.

(* ===================================================================== *)
(** * The loops of the extraction methods *)
(* ===================================================================== *)

Lemma getProductNames_loop_spec texts names :
  InventoryPage.getProductNames_loop texts names
  = names ++ concat (map nameOf texts).
Proof.
  revert names; induction texts as [|t texts IH]; intros names; simpl.
  - now rewrite app_nil_r.
  - rewrite IH. unfold nameOf, push. destruct (truthy t); simpl.
    + now rewrite <- app_assoc.
    + reflexivity.
Qed.

Lemma getProductPrices_loop_spec texts prices :
  InventoryPage.getProductPrices_loop texts prices
  = prices ++ concat (map priceOf texts).
Proof.
  revert prices; induction texts as [|t texts IH]; intros prices; simpl.
  - now rewrite app_nil_r.
  - rewrite IH. unfold priceOf, push. destruct (truthy t); simpl.
    + now rewrite <- app_assoc.
    + reflexivity.
Qed.

Lemma getProductNames_spec p :
  InventoryPage.getProductNames p = concat (map nameOf (productNames p)).
Proof. unfold InventoryPage.getProductNames. now rewrite getProductNames_loop_spec. Qed.

Lemma getProductPrices_spec p :
  InventoryPage.getProductPrices p = concat (map priceOf (productPrices p)).
Proof. unfold InventoryPage.getProductPrices. now rewrite getProductPrices_loop_spec. Qed.

(* ===================================================================== *)
(** * Adjacent pairs *)
(* ===================================================================== *)

Section AdjacentPairs.
Context {A : Type}.
Variable R : A -> A -> Prop.

Lemma adjacentPairs_nil : adjacentPairs R [].
Proof. intros i a b H; destruct i; discriminate. Qed.

Lemma adjacentPairs_one (x : A) : adjacentPairs R [x].
Proof. intros [|i] a b Ha Hb; simpl in *; [discriminate | destruct i; discriminate]. Qed.

Lemma adjacentPairs_cons (x y : A) (l : list A) :
  adjacentPairs R (x :: y :: l) <-> R x y /\ adjacentPairs R (y :: l).
Proof.
  split.
  - intros H. split.
    + apply (H 0%nat); reflexivity.
    + intros i a b Ha Hb. apply (H (S i)); assumption.
  - intros [Hxy H] [|i] a b Ha Hb.
    + simpl in Ha, Hb. congruence.
    + apply (H i); assumption.
Qed.

Lemma adjacentPairs_tail (x : A) (l : list A) :
  adjacentPairs R (x :: l) -> adjacentPairs R l.
Proof.
  destruct l as [|y l]; [intros _; apply adjacentPairs_nil |].
  rewrite adjacentPairs_cons. tauto.
Qed.

Lemma adjacentPairs_short (l : list A) :
  (length l <= 1)%nat -> adjacentPairs R l.
Proof.
  destruct l as [|x [|y l]]; simpl; intros H.
  - apply adjacentPairs_nil.
  - apply adjacentPairs_one.
  - lia.
Qed.

End AdjacentPairs.

Lemma adjacentPairs_impl {A} (R S : A -> A -> Prop) (l : list A) :
  (forall a b, a ∈ l -> b ∈ l -> R a b -> S a b) ->
  adjacentPairs R l -> adjacentPairs S l.
Proof.
  intros HRS H i a b Ha Hb.
  apply HRS; [eapply list_elem_of_lookup_2; eassumption .. | eapply H; eassumption].
Qed.

(* ===================================================================== *)
(** * Array.prototype.sort: what it leaves in place *)
(* ===================================================================== *)

Section SortFacts.
Context {A : Type}.
Variable comparefn : A -> A -> number.

Lemma insertSorted_front (x : A) (l : list A) :
  adjacentPairs (mayPrecede comparefn) (x :: l) -> insertSorted comparefn x l = x :: l.
Proof.
  destruct l as [|y l]; [reflexivity |].
  rewrite adjacentPairs_cons. intros [Hxy _]. simpl.
  unfold mayPrecede in Hxy. apply Z.leb_le in Hxy. now rewrite Hxy.
Qed.

(** An array already in order is left as it is. *)
Lemma sort_of_ordered (l : list A) :
  adjacentPairs (mayPrecede comparefn) l -> sort comparefn l = l.
Proof.
  induction l as [|x l IH]; [reflexivity |]. intros H. simpl.
  rewrite IH by (eapply adjacentPairs_tail; eassumption).
  now apply insertSorted_front.
Qed.

Lemma insertSorted_length (x : A) (l : list A) :
  length (insertSorted comparefn x l) = S (length l).
Proof.
  induction l as [|y l IH]; simpl; [reflexivity |].
  destruct (sortSign (comparefn x y) <=? 0); simpl; congruence.
Qed.

Lemma sort_length (l : list A) : length (sort comparefn l) = length l.
Proof.
  induction l as [|x l IH]; simpl; [reflexivity |].
  now rewrite insertSorted_length, IH.
Qed.

Lemma insertSorted_Permutation (x : A) (l : list A) :
  Permutation (insertSorted comparefn x l) (x :: l).
Proof.
  induction l as [|y l IH]; simpl; [reflexivity |].
  destruct (sortSign (comparefn x y) <=? 0); [reflexivity |].
  rewrite IH. apply perm_swap.
Qed.

(** The sorted array holds the elements of the source array. *)
Lemma sort_Permutation (l : list A) : Permutation (sort comparefn l) l.
Proof.
  induction l as [|x l IH]; simpl; [reflexivity |].
  rewrite insertSorted_Permutation. now constructor.
Qed.

(** Of two elements, one may precede the other: what the comparators of the
    page object give, whatever their arguments. *)
Hypothesis comparefn_total :
  forall x y, 0 < sortSign (comparefn x y) -> sortSign (comparefn y x) <= 0.

Lemma insertSorted_ordered (x : A) (l : list A) :
  adjacentPairs (mayPrecede comparefn) l ->
  adjacentPairs (mayPrecede comparefn) (insertSorted comparefn x l).
Proof.
  induction l as [|y l IH]; intros H; simpl.
  - apply adjacentPairs_one.
  - destruct (sortSign (comparefn x y) <=? 0) eqn:E.
    + apply adjacentPairs_cons. split; [now apply Z.leb_le | assumption].
    + apply Z.leb_gt in E.
      specialize (IH (adjacentPairs_tail _ _ _ H)).
      destruct l as [|z l]; simpl in *.
      * apply adjacentPairs_cons. split; [| apply adjacentPairs_one].
        now apply comparefn_total.
      * destruct (sortSign (comparefn x z) <=? 0).
        -- apply adjacentPairs_cons. split; [now apply comparefn_total | assumption].
        -- apply adjacentPairs_cons. split; [| assumption].
           now apply adjacentPairs_cons in H.
Qed.

Lemma sort_ordered (l : list A) : adjacentPairs (mayPrecede comparefn) (sort comparefn l).
Proof.
  induction l as [|x l IH]; simpl.
  - apply adjacentPairs_nil.
  - now apply insertSorted_ordered.
Qed.

(** Sorting leaves the array as it is exactly when it is in order. *)
Lemma sort_fixed_iff (l : list A) :
  sort comparefn l = l <-> adjacentPairs (mayPrecede comparefn) l.
Proof.
  split.
  - intros E. rewrite <- E. apply sort_ordered.
  - apply sort_of_ordered.
Qed.

End SortFacts.

(** ** The sort is the one the language fixes *)

Section StableSort.
Context {A : Type}.
Variable comparefn : A -> A -> number.

(** [comparefn] is a consistent comparator. *)
Hypothesis comparefn_antisym :
  forall x y, sortSign (comparefn y x) = - sortSign (comparefn x y).
Hypothesis comparefn_trans :
  forall x y z,
    mayPrecede comparefn x y -> mayPrecede comparefn y z -> mayPrecede comparefn x z.

Lemma mayPrecede_refl (x : A) : mayPrecede comparefn x x.
Proof. unfold mayPrecede. pose proof (comparefn_antisym x x). lia. Qed.

Lemma tied_iff (x y : A) :
  tied comparefn x y = true
  <-> mayPrecede comparefn x y /\ mayPrecede comparefn y x.
Proof.
  unfold tied, mayPrecede. rewrite Z.eqb_eq, (comparefn_antisym x y). lia.
Qed.

Lemma tied_refl (x : A) : tied comparefn x x = true.
Proof. apply tied_iff. split; apply mayPrecede_refl. Qed.

Lemma tied_trans (x y z : A) :
  tied comparefn x y = true -> tied comparefn x z = true ->
  tied comparefn y z = true.
Proof.
  rewrite !tied_iff. intros [Hxy Hyx] [Hxz Hzx].
  split; eapply comparefn_trans; eassumption.
Qed.

(** In an ordered array an element may precede all that follow it. *)
Lemma ordered_head (a : A) (l : list A) :
  adjacentPairs (mayPrecede comparefn) (a :: l) ->
  Forall (mayPrecede comparefn a) l.
Proof.
  revert a; induction l as [|b l IH]; intros a H; [constructor |].
  apply adjacentPairs_cons in H as [Hab H].
  constructor; [assumption |].
  eapply Forall_impl; [apply IH, H |].
  intros z Hbz. eapply comparefn_trans; eassumption.
Qed.

Lemma insertSorted_stable (x y : A) (l : list A) :
  List.filter (tied comparefn x) (insertSorted comparefn y l)
  = List.filter (tied comparefn x) (y :: l).
Proof.
  induction l as [|z l IH]; [reflexivity |].
  cbn [insertSorted].
  destruct (sortSign (comparefn y z) <=? 0) eqn:E; [reflexivity |].
  apply Z.leb_gt in E.
  cbn [List.filter] in *. rewrite IH.
  destruct (tied comparefn x y) eqn:Ey, (tied comparefn x z) eqn:Ez;
    try reflexivity.
  pose proof (tied_trans x y z Ey Ez) as Hyz.
  unfold tied in Hyz. apply Z.eqb_eq in Hyz. lia.
Qed.

(** Elements that tie come out of [sort] in the order they went in. *)
Lemma sort_stable (x : A) (l : list A) :
  List.filter (tied comparefn x) (sort comparefn l)
  = List.filter (tied comparefn x) l.
Proof.
  induction l as [|y l IH]; [reflexivity |].
  cbn [sort]. rewrite insertSorted_stable. cbn [List.filter]. now rewrite IH.
Qed.

Lemma comparefn_total_of_antisym (x y : A) :
  0 < sortSign (comparefn x y) -> sortSign (comparefn y x) <= 0.
Proof. rewrite (comparefn_antisym x y). lia. Qed.

Lemma sort_stableSortOf (l : list A) : stableSortOf comparefn l (sort comparefn l).
Proof.
  split; [apply sort_Permutation | split].
  - apply sort_ordered, comparefn_total_of_antisym.
  - intros x. apply sort_stable.
Qed.

Lemma head_precedes (a b : A) (l : list A) :
  adjacentPairs (mayPrecede comparefn) (a :: l) -> b ∈ a :: l ->
  mayPrecede comparefn a b.
Proof.
  intros Hord Hb. apply elem_of_cons in Hb as [-> | Hb].
  - apply mayPrecede_refl.
  - pose proof (ordered_head a l Hord) as Hall.
    rewrite Forall_forall in Hall. now apply Hall.
Qed.

(** Two stable, ordered arrangements of the same elements are the same
    array. *)
Lemma stable_order_unique (o1 o2 : list A) :
  Permutation o1 o2 ->
  adjacentPairs (mayPrecede comparefn) o1 ->
  adjacentPairs (mayPrecede comparefn) o2 ->
  (forall x, List.filter (tied comparefn x) o1 = List.filter (tied comparefn x) o2) ->
  o1 = o2.
Proof.
  revert o2; induction o1 as [|a o1 IH]; intros o2 Hperm H1 H2 Hst.
  - now apply Permutation_nil in Hperm.
  - destruct o2 as [|b o2];
      [symmetry in Hperm; now apply Permutation_nil in Hperm |].
    assert (Hab : mayPrecede comparefn a b).
    { apply (head_precedes a b o1 H1).
      rewrite Hperm. apply list_elem_of_here. }
    assert (Hba : mayPrecede comparefn b a).
    { apply (head_precedes b a o2 H2).
      rewrite <- Hperm. apply list_elem_of_here. }
    assert (Htie : tied comparefn a b = true) by (apply tied_iff; auto).
    pose proof (Hst a) as Ha. cbn [List.filter] in Ha.
    rewrite tied_refl, Htie in Ha. injection Ha as <- _.
    f_equal. apply IH.
    + eapply Permutation_cons_inv; eassumption.
    + eapply adjacentPairs_tail; eassumption.
    + eapply adjacentPairs_tail; eassumption.
    + intros x. specialize (Hst x). cbn [List.filter] in Hst.
      destruct (tied comparefn x a); congruence.
Qed.

(** For a consistent comparator the language leaves no choice: the result of
    [l.sort(comparefn)] is [sort comparefn l]. *)
Lemma sort_canonical (l out : list A) :
  stableSortOf comparefn l out <-> out = sort comparefn l.
Proof.
  split.
  - intros (Hperm & Hord & Hst).
    destruct (sort_stableSortOf l) as (Hperm' & Hord' & Hst').
    apply stable_order_unique; try assumption.
    + now rewrite Hperm, Hperm'.
    + intros x. now rewrite Hst, Hst'.
  - intros ->. apply sort_stableSortOf.
Qed.

End StableSort.

(* ===================================================================== *)
(** * Numbers: the sign of a difference *)
(* ===================================================================== *)

Lemma roundNearestEven_one (a : Z) : roundNearestEven a 1 = a.
Proof.
  unfold roundNearestEven. rewrite Z.div_1_r, Z.mod_1_r. reflexivity.
Qed.

Lemma roundNearestEven_ge (a b : Z) : a / b <= roundNearestEven a b.
Proof.
  unfold roundNearestEven.
  destruct (2 * (a mod b) ?= b); [destruct (Z.even (a / b)) | |]; lia.
Qed.

(** Rounding a difference to the nearest Number keeps its sign: a non-zero
    difference of two Numbers never rounds to zero. *)
Lemma roundRatio_sign (n : Z) : sortSign (roundRatio n 1) = Z.sgn n.
Proof.
  unfold roundRatio, mant_bits, overflow_threshold.
  assert (Hpow : 2 ^ 53 < 2 ^ 2098) by (apply Z.pow_lt_mono_r; lia).
  assert (Hpos : 0 < 2 ^ 53) by (apply Z.pow_pos_nonneg; lia).
  rewrite Z.mul_1_r, Z.div_1_r, Z.mul_1_l.
  destruct (Z.abs n <? 2 ^ 53) eqn:Esmall.
  - apply Z.ltb_lt in Esmall. rewrite roundNearestEven_one.
    replace (2 ^ 2098 <=? Z.abs n) with false by (symmetry; apply Z.leb_gt; lia).
    destruct n; reflexivity.
  - apply Z.ltb_ge in Esmall.
    set (k := Z.log2 (Z.abs n) - (53 - 1)).
    assert (Hlog : 53 <= Z.log2 (Z.abs n)) by (apply Z.log2_le_pow2; lia).
    assert (Hk : 0 <= k) by (unfold k; lia).
    assert (H2k : 0 < 2 ^ k) by (apply Z.pow_pos_nonneg; lia).
    assert (Hle : 2 ^ k <= Z.abs n).
    { transitivity (2 ^ Z.log2 (Z.abs n)).
      - apply Z.pow_le_mono_r; unfold k; lia.
      - apply Z.log2_spec; lia. }
    assert (Hq : 1 <= Z.abs n / 2 ^ k).
    { apply Z.div_le_lower_bound; lia. }
    pose proof (roundNearestEven_ge (Z.abs n) (2 ^ k)) as Hr.
    set (mag := roundNearestEven (Z.abs n) (2 ^ k) * 2 ^ k).
    assert (Hmag : 0 < mag) by (unfold mag; nia).
    destruct (2 ^ 2098 <=? mag).
    + destruct (n <? 0) eqn:En; simpl.
      * apply Z.ltb_lt in En. destruct n; simpl; lia.
      * apply Z.ltb_ge in En. destruct n; simpl in *; lia.
    + simpl. rewrite Z.sgn_mul, (Z.sgn_pos mag) by assumption. lia.
Qed.

(** The two price comparators never call both [a] greater than [b] and [b]
    greater than [a]. *)
Lemma sub_total (a b : number) :
  0 < sortSign (sub a b) -> sortSign (sub b a) <= 0.
Proof.
  destruct a as [| | |x], b as [| | |y]; simpl; try lia.
  rewrite !roundRatio_sign. lia.
Qed.

Lemma sub_mayPrecede_leb (a b : number) :
  isFinite a = true -> isFinite b = true ->
  sortSign (sub a b) <= 0 <-> leb a b = true.
Proof.
  destruct a as [| | |x], b as [| | |y]; simpl; try discriminate.
  intros _ _. rewrite roundRatio_sign, Z.leb_le. lia.
Qed.

(** On finite amounts [(a, b) => a - b] is a consistent comparator, so the
    order of the sorted prices is the one the language fixes. *)
Lemma finite_prices_sort_canonical (l out : list Z) :
  stableSortOf (fun x y => sub (Fin x) (Fin y)) l out
  <-> out = sort (fun x y => sub (Fin x) (Fin y)) l.
Proof.
  apply sort_canonical.
  - intros x y. cbn [sub]. rewrite !roundRatio_sign. lia.
  - intros x y z. unfold mayPrecede. cbn [sub]. rewrite !roundRatio_sign. lia.
Qed.

Lemma sub_self_sign (a : number) : sortSign (sub a a) = 0.
Proof.
  destruct a as [| | |x]; simpl; try reflexivity.
  rewrite roundRatio_sign, Z.sub_diag. reflexivity.
Qed.

(* ===================================================================== *)
(** * The sort-order checks of InventoryPage *)
(* ===================================================================== *)

Lemma sorted_check_strings (comparefn : jsstring -> jsstring -> number)
    (names : list jsstring) :
  text_eqb (stringifyStrings names) (stringifyStrings (sort comparefn names)) = true
  <-> sort comparefn names = names.
Proof. rewrite strings_text_eqb. split; congruence. Qed.

Lemma sorted_check_numbers (comparefn : number -> number -> number)
    (prices : list number) :
  Forall (fun v => isFinite v = true) prices ->
  text_eqb (stringifyNumbers prices) (stringifyNumbers (sort comparefn prices)) = true
  <-> sort comparefn prices = prices.
Proof. intros Hfin. rewrite numbers_text_eqb by assumption. split; congruence. Qed.

(** Whatever the elements, an array that the sort leaves in place passes the
    check. *)
Lemma sorted_check_of_fixed (comparefn : number -> number -> number)
    (prices : list number) :
  sort comparefn prices = prices ->
  text_eqb (stringifyNumbers prices) (stringifyNumbers (sort comparefn prices)) = true.
Proof. intros ->. now apply text_eqb_eq. Qed.

Section Ordering.
Variable localeCompare : jsstring -> jsstring -> number.

(** [localeCompare] is a consistent comparator: swapping the two strings
    swaps the sign of the result. *)
Hypothesis localeCompare_antisym :
  forall a b, sortSign (localeCompare b a) = - sortSign (localeCompare a b).

Lemma localeCompare_total (a b : jsstring) :
  0 < sortSign (localeCompare a b) -> sortSign (localeCompare b a) <= 0.
Proof. rewrite (localeCompare_antisym a b). lia. Qed.

Lemma localeCompare_total_rev (a b : jsstring) :
  0 < sortSign (localeCompare b a) -> sortSign (localeCompare a b) <= 0.
Proof. rewrite (localeCompare_antisym a b). lia. Qed.

Lemma localeCompare_refl (a : jsstring) : sortSign (localeCompare a a) = 0.
Proof. pose proof (localeCompare_antisym a a). lia. Qed.

Lemma areProductsSortedAZ_iff (p : page) :
  InventoryPage.areProductsSortedAZ localeCompare p = true
  <-> adjacentPairs (fun a b => sortSign (localeCompare a b) <= 0)
        (InventoryPage.getProductNames p).
Proof.
  unfold InventoryPage.areProductsSortedAZ.
  rewrite sorted_check_strings.
  apply (sort_fixed_iff (fun a b => localeCompare a b)), localeCompare_total.
Qed.

Lemma areProductsSortedZA_iff (p : page) :
  InventoryPage.areProductsSortedZA localeCompare p = true
  <-> adjacentPairs (fun a b => 0 <= sortSign (localeCompare a b))
        (InventoryPage.getProductNames p).
Proof.
  unfold InventoryPage.areProductsSortedZA.
  rewrite sorted_check_strings.
  rewrite (sort_fixed_iff (fun a b => localeCompare b a))
    by (intros x y; apply localeCompare_total_rev).
  unfold mayPrecede.
  split; apply adjacentPairs_impl; intros a b _ _;
    rewrite (localeCompare_antisym a b); lia.
Qed.

Lemma areProductsSortedByPriceLowToHigh_iff (p : page) :
  Forall (fun v => isFinite v = true) (InventoryPage.getProductPrices p) ->
  InventoryPage.areProductsSortedByPriceLowToHigh p = true
  <-> adjacentPairs (fun a b => leb a b = true) (InventoryPage.getProductPrices p).
Proof.
  intros Hfin. unfold InventoryPage.areProductsSortedByPriceLowToHigh.
  rewrite sorted_check_numbers by assumption.
  rewrite (sort_fixed_iff (fun a b => sub a b)) by apply sub_total.
  rewrite Forall_forall in Hfin. unfold mayPrecede.
  split; apply adjacentPairs_impl; intros a b Ha Hb;
    apply sub_mayPrecede_leb; apply Hfin; assumption.
Qed.

Lemma areProductsSortedByPriceHighToLow_iff (p : page) :
  Forall (fun v => isFinite v = true) (InventoryPage.getProductPrices p) ->
  InventoryPage.areProductsSortedByPriceHighToLow p = true
  <-> adjacentPairs (fun a b => geb a b = true) (InventoryPage.getProductPrices p).
Proof.
  intros Hfin. unfold InventoryPage.areProductsSortedByPriceHighToLow.
  rewrite sorted_check_numbers by assumption.
  rewrite (sort_fixed_iff (fun a b => sub b a))
    by (intros x y; apply sub_total).
  rewrite Forall_forall in Hfin. unfold mayPrecede, geb.
  split; apply adjacentPairs_impl; intros a b Ha Hb;
    apply sub_mayPrecede_leb; apply Hfin; assumption.
Qed.

Lemma short_names_sorted (p : page) :
  (length (InventoryPage.getProductNames p) <= 1)%nat ->
  InventoryPage.areProductsSortedAZ localeCompare p = true
  /\ InventoryPage.areProductsSortedZA localeCompare p = true.
Proof.
  intros Hlen.
  unfold InventoryPage.areProductsSortedAZ, InventoryPage.areProductsSortedZA.
  rewrite !sorted_check_strings.
  split; apply sort_of_ordered, adjacentPairs_short, Hlen.
Qed.

Lemma short_prices_sorted (p : page) :
  (length (InventoryPage.getProductPrices p) <= 1)%nat ->
  InventoryPage.areProductsSortedByPriceLowToHigh p = true
  /\ InventoryPage.areProductsSortedByPriceHighToLow p = true.
Proof.
  intros Hlen.
  unfold InventoryPage.areProductsSortedByPriceLowToHigh,
    InventoryPage.areProductsSortedByPriceHighToLow.
  split; apply sorted_check_of_fixed, sort_of_ordered, adjacentPairs_short, Hlen.
Qed.

(** C1. Each of the four sort-order checks sorts a copy of the normalized
    sequence with its comparator and compares the two renderings; the check
    returns [true] exactly when every adjacent pair [(i, i+1)] of the
    normalized sequence satisfies the directional predicate: [a <= b] for
    the ascending checks and [a >= b] for the descending ones, by
    [localeCompare] for names and by the numeric order for prices, which are
    finite amounts.  A sequence of at most one element passes every check. *)
Theorem isOrdered_iff_adjacent_pairs (p : page) :
  let names := InventoryPage.getProductNames p in
  let prices := InventoryPage.getProductPrices p in
  (InventoryPage.areProductsSortedAZ localeCompare p = true
   <-> adjacentPairs (fun a b => sortSign (localeCompare a b) <= 0) names)
  /\ (InventoryPage.areProductsSortedZA localeCompare p = true
      <-> adjacentPairs (fun a b => 0 <= sortSign (localeCompare a b)) names)
  /\ (Forall (fun v => isFinite v = true) prices ->
      (InventoryPage.areProductsSortedByPriceLowToHigh p = true
       <-> adjacentPairs (fun a b => leb a b = true) prices))
  /\ (Forall (fun v => isFinite v = true) prices ->
      (InventoryPage.areProductsSortedByPriceHighToLow p = true
       <-> adjacentPairs (fun a b => geb a b = true) prices))
  /\ ((length names <= 1)%nat ->
      InventoryPage.areProductsSortedAZ localeCompare p = true
      /\ InventoryPage.areProductsSortedZA localeCompare p = true)
  /\ ((length prices <= 1)%nat ->
      InventoryPage.areProductsSortedByPriceLowToHigh p = true
      /\ InventoryPage.areProductsSortedByPriceHighToLow p = true).
Proof.
  intros names prices. repeat split.
  - apply areProductsSortedAZ_iff.
  - apply areProductsSortedAZ_iff.
  - apply areProductsSortedZA_iff.
  - apply areProductsSortedZA_iff.
  - now apply areProductsSortedByPriceLowToHigh_iff.
  - now apply areProductsSortedByPriceLowToHigh_iff.
  - now apply areProductsSortedByPriceHighToLow_iff.
  - now apply areProductsSortedByPriceHighToLow_iff.
  - now apply short_names_sorted.
  - now apply short_names_sorted.
  - now apply short_prices_sorted.
  - now apply short_prices_sorted.
Qed.

End Ordering.

(** Outside the finite amounts the rendering no longer tells the elements
    apart: [JSON.stringify] writes [Infinity] and [-Infinity] both as [null],
    so the ascending check accepts [[Infinity, -Infinity]]. *)
Lemma nonfinite_prices_render_alike :
  InventoryPage.getProductPrices (pageOf [] ["Infinity"; "-Infinity"]%string)
  = [PInf; NInf]
  /\ leb PInf NInf = false
  /\ InventoryPage.areProductsSortedByPriceLowToHigh
       (pageOf [] ["Infinity"; "-Infinity"]%string) = true.
Proof. repeat split; vm_compute; reflexivity. Qed.

(* ===================================================================== *)
(** * Ties *)
(* ===================================================================== *)

Section Ties.
Variable localeCompare : jsstring -> jsstring -> number.
Hypothesis localeCompare_antisym :
  forall a b, sortSign (localeCompare b a) = - sortSign (localeCompare a b).

Lemma tied_names_sorted (p : page) :
  adjacentPairs (fun a b => a = b) (InventoryPage.getProductNames p) ->
  InventoryPage.areProductsSortedAZ localeCompare p = true
  /\ InventoryPage.areProductsSortedZA localeCompare p = true.
Proof.
  intros Hties.
  unfold InventoryPage.areProductsSortedAZ, InventoryPage.areProductsSortedZA.
  rewrite !sorted_check_strings.
  split; apply sort_of_ordered; revert Hties; apply adjacentPairs_impl;
    intros a b _ _ <-; unfold mayPrecede;
    rewrite (localeCompare_refl localeCompare localeCompare_antisym); lia.
Qed.

Lemma tied_prices_sorted (p : page) :
  adjacentPairs (fun a b => a = b) (InventoryPage.getProductPrices p) ->
  InventoryPage.areProductsSortedByPriceLowToHigh p = true
  /\ InventoryPage.areProductsSortedByPriceHighToLow p = true.
Proof.
  intros Hties.
  unfold InventoryPage.areProductsSortedByPriceLowToHigh,
    InventoryPage.areProductsSortedByPriceHighToLow.
  split; apply sorted_check_of_fixed, sort_of_ordered; revert Hties;
    apply adjacentPairs_impl; intros a b _ _ <-; unfold mayPrecede;
    rewrite sub_self_sign; lia.
Qed.

Lemma leb_refl_number (v : number) : isNaN v = false -> leb v v = true.
Proof. destruct v; simpl; try discriminate; try reflexivity. intros _. apply Z.leb_refl. Qed.

(** C6. Two equal elements satisfy the ascending and the descending
    predicate alike, for names and for prices (any Number but [NaN], which
    no relational operator accepts); and a sequence whose adjacent elements
    are all equal passes the ascending and the descending check, for names
    and for prices.  The checks are total, so a tie raises nothing. *)
Theorem ties_satisfy_both_directions :
  (forall a : jsstring,
      sortSign (localeCompare a a) <= 0 /\ 0 <= sortSign (localeCompare a a))
  /\ (forall v : number, isNaN v = false -> leb v v = true /\ geb v v = true)
  /\ (forall p : page,
        adjacentPairs (fun a b => a = b) (InventoryPage.getProductNames p) ->
        InventoryPage.areProductsSortedAZ localeCompare p = true
        /\ InventoryPage.areProductsSortedZA localeCompare p = true)
  /\ (forall p : page,
        adjacentPairs (fun a b => a = b) (InventoryPage.getProductPrices p) ->
        InventoryPage.areProductsSortedByPriceLowToHigh p = true
        /\ InventoryPage.areProductsSortedByPriceHighToLow p = true).
Proof.
  split; [| split; [| split]].
  - intros a. rewrite (localeCompare_refl localeCompare localeCompare_antisym). lia.
  - intros v Hv. unfold geb. split; now apply leb_refl_number.
  - apply tied_names_sorted.
  - apply tied_prices_sorted.
Qed.

End Ties.

(* ===================================================================== *)
(** * A collation to run the checks with *)
(* ===================================================================== *)

Lemma codeUnitCompare_antisym (a b : jsstring) :
  sortSign (codeUnitCompare b a) = - sortSign (codeUnitCompare a b).
Proof.
  revert b; induction a as [|x a IH]; intros [|y b]; try reflexivity.
  simpl. rewrite (Z.compare_antisym x y).
  destruct (x ?= y); simpl; [apply IH | reflexivity | reflexivity].
Qed.

Lemma adjacentPairs_repeat {A} (x : A) (n : nat) :
  adjacentPairs (fun a b => a = b) (repeat x n).
Proof.
  intros i a b Ha Hb.
  apply list_elem_of_lookup_2, list_elem_of_In, repeat_spec in Ha.
  apply list_elem_of_lookup_2, list_elem_of_In, repeat_spec in Hb.
  congruence.
Qed.

(** The scenario of the specification: [Zebra, Apple, Mango] is not in
    descending order, [Zebra, Mango, Apple] is. *)
Lemma zebra_scenario :
  InventoryPage.areProductsSortedZA codeUnitCompare
    (pageOf ["Zebra"; "Apple"; "Mango"]%string []) = false
  /\ InventoryPage.areProductsSortedZA codeUnitCompare
       (pageOf ["Zebra"; "Mango"; "Apple"]%string []) = true.
Proof. split; vm_compute; reflexivity. Qed.

Lemma isOrdered_iff_adjacent_pairs_witness :
  let p := pageOf ["Apple"; "Mango"; "Zebra"]%string
                  ["$7.99"; "$9.99"; "$15.99"]%string in
  (forall a b, sortSign (codeUnitCompare b a) = - sortSign (codeUnitCompare a b))
  /\ Forall (fun v => isFinite v = true) (InventoryPage.getProductPrices p)
  /\ adjacentPairs (fun a b => sortSign (codeUnitCompare a b) <= 0)
       (InventoryPage.getProductNames p)
  /\ adjacentPairs (fun a b => leb a b = true) (InventoryPage.getProductPrices p)
  /\ InventoryPage.areProductsSortedZA codeUnitCompare p = false.
Proof.
  intros p.
  assert (Hfin : Forall (fun v => isFinite v = true) (InventoryPage.getProductPrices p))
    by (vm_compute; repeat constructor).
  destruct (isOrdered_iff_adjacent_pairs codeUnitCompare codeUnitCompare_antisym p)
    as (HAZ & _ & HLH & _).
  split; [exact codeUnitCompare_antisym |].
  split; [exact Hfin |].
  split; [apply HAZ; vm_compute; reflexivity |].
  split; [apply (HLH Hfin); vm_compute; reflexivity |].
  vm_compute; reflexivity.
Defined.

Lemma ties_satisfy_both_directions_witness :
  let p := pageOf ["Onesie"; "Onesie"; "Onesie"]%string
                  ["$7.99"; "$7.99"]%string in
  (forall a b, sortSign (codeUnitCompare b a) = - sortSign (codeUnitCompare a b))
  /\ adjacentPairs (fun a b => a = b) (InventoryPage.getProductNames p)
  /\ adjacentPairs (fun a b => a = b) (InventoryPage.getProductPrices p)
  /\ InventoryPage.areProductsSortedAZ codeUnitCompare p = true
  /\ InventoryPage.areProductsSortedZA codeUnitCompare p = true
  /\ InventoryPage.areProductsSortedByPriceLowToHigh p = true
  /\ InventoryPage.areProductsSortedByPriceHighToLow p = true.
Proof.
  intros p.
  assert (En : InventoryPage.getProductNames p = repeat (str "Onesie") 3)
    by (vm_compute; reflexivity).
  assert (Ep : InventoryPage.getProductPrices p = repeat (parseFloat (str "7.99")) 2)
    by (vm_compute; reflexivity).
  assert (Hn : adjacentPairs (fun a b => a = b) (InventoryPage.getProductNames p))
    by (rewrite En; apply adjacentPairs_repeat).
  assert (Hp : adjacentPairs (fun a b => a = b) (InventoryPage.getProductPrices p))
    by (rewrite Ep; apply adjacentPairs_repeat).
  destruct (ties_satisfy_both_directions codeUnitCompare codeUnitCompare_antisym)
    as (_ & _ & Hnames & Hprices).
  destruct (Hnames p Hn) as [HAZ HZA].
  destruct (Hprices p Hp) as [HLH HHL].
  split; [exact codeUnitCompare_antisym |].
  tauto.
Defined.

(* ===================================================================== *)
(** * Comparison with the expected order *)
(* ===================================================================== *)

Lemma toEqual_eq (received expected : list jsstring) :
  SortingSpec.toEqual received expected = true <-> received = expected.
Proof.
  revert expected; induction received as [|r received IH];
    intros [|e expected]; simpl; try easy.
  rewrite andb_true_iff, streq_eq, IH. split.
  - intros [-> ->]; reflexivity.
  - intros E; injection E; auto.
Qed.

Lemma toEqual_false (received expected : list jsstring) :
  SortingSpec.toEqual received expected = false <-> received <> expected.
Proof.
  rewrite <- toEqual_eq. destruct (SortingSpec.toEqual received expected); split;
    congruence.
Qed.

Lemma list_eq_positions {A} (l k : list A) :
  l = k <-> length l = length k /\ forall i : nat, l !! i = k !! i.
Proof.
  split.
  - intros ->. auto.
  - intros [_ H]. now apply list_eq.
Qed.

(** C2. The comparison with the expected order passes exactly when the
    normalized names and the expected names have the same length and the same
    string at every position; it fails when the lengths differ and when some
    position differs.  So [[a,b,c]] matches [[a,b,c]], and does not match
    [[c,b,a]], which holds the same elements in another order. *)
Theorem matchesExpected_position_sensitive (p : page) (expected : list jsstring) :
  let sequence := InventoryPage.getProductNames p in
  (SortingSpec.matchesExpected p expected = true
   <-> length sequence = length expected
       /\ forall i : nat, sequence !! i = expected !! i)
  /\ (length sequence <> length expected ->
      SortingSpec.matchesExpected p expected = false)
  /\ (forall i : nat, sequence !! i <> expected !! i ->
      SortingSpec.matchesExpected p expected = false)
  /\ (forall a b c : jsstring,
        SortingSpec.toEqual [a; b; c] [a; b; c] = true
        /\ (a <> c -> SortingSpec.toEqual [a; b; c] [c; b; a] = false)).
Proof.
  intros sequence. unfold SortingSpec.matchesExpected. fold sequence.
  split; [| split; [| split]].
  - rewrite toEqual_eq. apply list_eq_positions.
  - intros Hlen. apply toEqual_false. congruence.
  - intros i Hi. apply toEqual_false. congruence.
  - intros a b c. split.
    + now apply toEqual_eq.
    + intros Hac. apply toEqual_false. congruence.
Qed.

Lemma matchesExpected_position_sensitive_witness :
  let p := pageOf [" Zebra"; "Mango "; "Apple"]%string [] in
  let za := [str "Zebra"; str "Mango"; str "Apple"] in
  let az := [str "Apple"; str "Mango"; str "Zebra"] in
  str "Zebra" <> str "Apple"
  /\ SortingSpec.matchesExpected p za = true
  /\ SortingSpec.matchesExpected p az = false
  /\ SortingSpec.toEqual za az = false.
Proof.
  intros p za az.
  assert (Hne : str "Zebra" <> str "Apple") by discriminate.
  destruct (matchesExpected_position_sensitive p za) as (Hiff & _ & _ & _).
  destruct (matchesExpected_position_sensitive p az) as (_ & _ & Hpos & Hex).
  split; [exact Hne |].
  split; [apply Hiff; split; [reflexivity | intros i; reflexivity] |].
  split; [apply (Hpos 0%nat); discriminate |].
  apply (Hex (str "Zebra") (str "Mango") (str "Apple")), Hne.
Defined.

(* ===================================================================== *)
(** * Totals: tax and total *)
(* ===================================================================== *)

Import TotalsVerifier.

Lemma floor_bounds (y : Q) :
  (inject_Z (Qfloor y) <= y /\ y < inject_Z (Qfloor y) + 1)%Q.
Proof.
  split; [apply Qfloor_le |].
  pose proof (Qlt_floor y) as H. rewrite inject_Z_plus in H. exact H.
Qed.

(** The rounded value is the multiple of [0.01] nearest to [x]; when [x] lies
    half-way between two of them, it is the one farther from zero. *)
Lemma roundHalfAwayFromZero2_spec (x : Q) :
  (exists n : Z, roundHalfAwayFromZero2 x == inject_Z n * (1 # 100))%Q
  /\ (0 <= x ->
      - (1 # 200) < roundHalfAwayFromZero2 x - x
      /\ roundHalfAwayFromZero2 x - x <= 1 # 200)%Q
  /\ (x < 0 ->
      - (1 # 200) <= roundHalfAwayFromZero2 x - x
      /\ roundHalfAwayFromZero2 x - x < 1 # 200)%Q.
Proof.
  unfold roundHalfAwayFromZero2. split; [| split]; [| intros H | intros H].
  - destruct (Qle_bool 0 x).
    + eexists; reflexivity.
    + exists (- Qfloor (- x * 100 + (1 # 2)))%Z.
      rewrite inject_Z_opp. ring.
  - destruct (Qle_bool 0 x) eqn:E.
    + destruct (floor_bounds (x * 100 + (1 # 2))) as [H0 H1].
      generalize dependent (inject_Z (Qfloor (x * 100 + (1 # 2)))).
      intros n H0 H1. split; lra.
    + apply Qle_bool_iff in H. congruence.
  - destruct (Qle_bool 0 x) eqn:E.
    + apply Qle_bool_iff in E. lra.
    + destruct (floor_bounds (- x * 100 + (1 # 2))) as [H0 H1].
      generalize dependent (inject_Z (Qfloor (- x * 100 + (1 # 2)))).
      intros n H0 H1. split; lra.
Qed.

(** Half-way cases go away from zero, on both sides. *)
Lemma roundHalfAwayFromZero2_halves :
  (roundHalfAwayFromZero2 (1005 # 1000) == 101 # 100
   /\ roundHalfAwayFromZero2 (- (1005 # 1000)) == - (101 # 100)
   /\ roundHalfAwayFromZero2 (1004 # 1000) == 100 # 100)%Q.
Proof. repeat split; vm_compute; reflexivity. Qed.

Lemma isNegative_false (x : Q) : (0 <= x)%Q -> isNegative x = false.
Proof. intros H. unfold isNegative. apply Qle_bool_iff in H. now rewrite H. Qed.

Lemma isNegative_true (x : Q) : (x < 0)%Q -> isNegative x = true.
Proof.
  intros H. unfold isNegative. destruct (Qle_bool 0 x) eqn:E; [| reflexivity].
  apply Qle_bool_iff in E. lra.
Qed.

Lemma Ok_true_iff (b : bool) (P : Prop) :
  (b = true <-> P) ->
  (Ok b = Ok true <-> P) /\ (Ok b = Ok false <-> ~ P).
Proof.
  intros [H1 H2]. destruct b; split; split; intros H'.
  - now apply H1.
  - reflexivity.
  - discriminate.
  - exfalso. now apply H', H1.
  - discriminate.
  - discriminate (H2 H').
  - intros HP. discriminate (H2 HP).
  - reflexivity.
Qed.

(** C3. For non-negative amounts, [validateTax] returns [true] exactly when
    the observed tax is within [0.01] of the expected tax, and [false]
    otherwise; the expected tax is [subtotal * rate] rounded to two decimal
    places, half away from zero.  With a rate of [0.08] on [100.00], an
    observed tax of [8.00] or [8.01] is accepted and [8.50] is not. *)
Theorem validateTax_within_tolerance (subtotal observedTax rate : Q) :
  (0 <= subtotal)%Q -> (0 <= observedTax)%Q ->
  let expectedTax := roundHalfAwayFromZero2 (subtotal * rate) in
  (validateTax subtotal observedTax rate = Ok true
   <-> (Qabs (expectedTax - observedTax) <= 1 # 100)%Q)
  /\ (validateTax subtotal observedTax rate = Ok false
      <-> ~ (Qabs (expectedTax - observedTax) <= 1 # 100)%Q)
  /\ (exists n : Z, expectedTax == inject_Z n * (1 # 100))%Q
  /\ (0 <= subtotal * rate ->
      - (1 # 200) < expectedTax - subtotal * rate
      /\ expectedTax - subtotal * rate <= 1 # 200)%Q
  /\ (subtotal * rate < 0 ->
      - (1 # 200) <= expectedTax - subtotal * rate
      /\ expectedTax - subtotal * rate < 1 # 200)%Q
  /\ validateTax 100 8 (8 # 100) = Ok true
  /\ validateTax 100 (801 # 100) (8 # 100) = Ok true
  /\ validateTax 100 (850 # 100) (8 # 100) = Ok false.
Proof.
  intros Hs Ht expectedTax.
  assert (Hcall : validateTax subtotal observedTax rate
                  = Ok (Qle_bool (Qabs (expectedTax - observedTax)) tolerance)).
  { unfold validateTax. now rewrite (isNegative_false _ Hs), (isNegative_false _ Ht). }
  destruct (Ok_true_iff _ _ (Qle_bool_iff (Qabs (expectedTax - observedTax)) tolerance))
    as [Htrue Hfalse].
  destruct (roundHalfAwayFromZero2_spec (subtotal * rate)) as (Hn & Hpos & Hneg).
  rewrite Hcall.
  split; [exact Htrue |]. split; [exact Hfalse |]. split; [exact Hn |].
  split; [exact Hpos |]. split; [exact Hneg |].
  split; [| split]; vm_compute; reflexivity.
Qed.

Lemma validateTax_within_tolerance_witness :
  (0 <= 2999 # 100)%Q /\ (0 <= 240 # 100)%Q
  /\ roundHalfAwayFromZero2 ((2999 # 100) * (8 # 100)) == 240 # 100
  /\ validateTax (2999 # 100) (240 # 100) (8 # 100) = Ok true.
Proof.
  assert (Hs : (0 <= 2999 # 100)%Q) by (vm_compute; discriminate).
  assert (Ht : (0 <= 240 # 100)%Q) by (vm_compute; discriminate).
  destruct (validateTax_within_tolerance (2999 # 100) (240 # 100) (8 # 100) Hs Ht)
    as (Htrue & _).
  split; [exact Hs |]. split; [exact Ht |].
  split; [vm_compute; reflexivity |].
  apply Htrue. vm_compute. discriminate.
Defined.

(** C4. For non-negative amounts, [validateTotal] returns [true] exactly when
    the observed total is within [0.01] of [subtotal + tax], and [false]
    otherwise: [108.00] is accepted for [100.00 + 8.00], and [107.98], which
    is [0.02] off, is not. *)
Theorem validateTotal_within_tolerance (subtotal tax observedTotal : Q) :
  (0 <= subtotal)%Q -> (0 <= tax)%Q -> (0 <= observedTotal)%Q ->
  (validateTotal subtotal tax observedTotal = Ok true
   <-> (Qabs ((subtotal + tax) - observedTotal) <= 1 # 100)%Q)
  /\ (validateTotal subtotal tax observedTotal = Ok false
      <-> ~ (Qabs ((subtotal + tax) - observedTotal) <= 1 # 100)%Q)
  /\ validateTotal 100 8 108 = Ok true
  /\ validateTotal 100 8 (10798 # 100) = Ok false
  /\ (Qabs ((100 + 8) - (10798 # 100)) == 2 # 100)%Q.
Proof.
  intros Hs Ht Ho.
  assert (Hcall : validateTotal subtotal tax observedTotal
                  = Ok (Qle_bool (Qabs ((subtotal + tax) - observedTotal)) tolerance)).
  { unfold validateTotal.
    now rewrite (isNegative_false _ Hs), (isNegative_false _ Ht),
      (isNegative_false _ Ho). }
  destruct (Ok_true_iff _ _
              (Qle_bool_iff (Qabs ((subtotal + tax) - observedTotal)) tolerance))
    as [Htrue Hfalse].
  rewrite Hcall.
  split; [exact Htrue |]. split; [exact Hfalse |].
  split; [| split]; vm_compute; reflexivity.
Qed.

Lemma validateTotal_within_tolerance_witness :
  (0 <= 2999 # 100)%Q /\ (0 <= 240 # 100)%Q /\ (0 <= 3239 # 100)%Q
  /\ validateTotal (2999 # 100) (240 # 100) (3239 # 100) = Ok true.
Proof.
  assert (Hs : (0 <= 2999 # 100)%Q) by (vm_compute; discriminate).
  assert (Ht : (0 <= 240 # 100)%Q) by (vm_compute; discriminate).
  assert (Ho : (0 <= 3239 # 100)%Q) by (vm_compute; discriminate).
  destruct (validateTotal_within_tolerance _ _ _ Hs Ht Ho) as (Htrue & _).
  repeat (split; [assumption |]).
  apply Htrue. vm_compute. discriminate.
Defined.

(** C5. A negative amount makes [validateTax] and [validateTotal] signal
    [InvalidAmount] instead of returning a boolean. *)
Theorem negative_amount_is_invalid :
  (forall subtotal observedTax rate : Q,
      (subtotal < 0 \/ observedTax < 0)%Q ->
      validateTax subtotal observedTax rate = Err InvalidAmount)
  /\ (forall subtotal tax observedTotal : Q,
        (subtotal < 0 \/ tax < 0 \/ observedTotal < 0)%Q ->
        validateTotal subtotal tax observedTotal = Err InvalidAmount).
Proof.
  split.
  - intros s t r [H | H]; unfold validateTax;
      rewrite (isNegative_true _ H), ?orb_true_r; reflexivity.
  - intros s t o [H | [H | H]]; unfold validateTotal;
      rewrite (isNegative_true _ H), ?orb_true_r; reflexivity.
Qed.

Lemma negative_amount_is_invalid_witness :
  (- (5 # 1) < 0)%Q
  /\ validateTax (- (5 # 1)) (0 # 1) (8 # 100) = Err InvalidAmount
  /\ validateTotal (100 # 1) (8 # 1) (- (5 # 1)) = Err InvalidAmount.
Proof.
  assert (H : (- (5 # 1) < 0)%Q) by reflexivity.
  destruct negative_amount_is_invalid as [Htax Htotal].
  split; [exact H |]. split.
  - apply Htax. left. exact H.
  - apply Htotal. right. right. exact H.
Defined.

(* ===================================================================== *)
(** * parseFloat: when the result is NaN *)
(* ===================================================================== *)

Lemma roundRatio_not_NaN (n d : Z) : roundRatio n d <> NaN.
Proof.
  unfold roundRatio. lazy zeta.
  destruct (overflow_threshold <=? _); [destruct (n <? 0) |]; discriminate.
Qed.

Lemma ofDecimal_not_NaN (n e : Z) : ofDecimal n e <> NaN.
Proof. unfold ofDecimal. destruct (0 <=? e); apply roundRatio_not_NaN. Qed.

(** [parseFloat] yields [NaN] exactly on the texts it can read no number
    from. *)
Lemma parseFloat_NaN_iff (s : jsstring) :
  parseFloat s = NaN <-> hasNumericPrefix s = false.
Proof.
  unfold parseFloat, hasNumericPrefix.
  destruct (splitSign (trimStart s)) as [neg t].
  destruct (startsWith (str "Infinity") t).
  { simpl. split; [destruct neg |]; discriminate. }
  rewrite orb_false_l.
  destruct t as [|c r]; [simpl; tauto |].
  cbn [takeWhile dropWhile].
  destruct (isDigit c) eqn:Ec.
  { cbn [app orb]. destruct (dropWhile isDigit r) as [|c' r'];
      [| destruct (c' =? 46)];
      split; try discriminate; intros H; now apply ofDecimal_not_NaN in H. }
  rewrite orb_false_l. cbn [app].
  destruct (c =? 46); [| simpl; tauto].
  rewrite andb_true_l.
  destruct r as [|d r]; [simpl; tauto |].
  cbn [takeWhile]. destruct (isDigit d); [| simpl; tauto].
  cbn [app]. split; try discriminate; intros H; now apply ofDecimal_not_NaN in H.
Qed.

Lemma parseFloat_of_falsy (t : option jsstring) :
  truthy t = false -> parseFloat (replace (str "$") [] (orEmpty t)) = NaN.
Proof.
  destruct t as [[|c s]|]; simpl; try discriminate; reflexivity.
Qed.

(* ===================================================================== *)
(** * getProducts *)
(* ===================================================================== *)

Lemma getProducts_loop_spec (items : list item) (products : list Product) :
  InventoryPage.getProducts_loop items products
  = products ++ map productOf items.
Proof.
  revert products; induction items as [|it items IH]; intros products; simpl.
  - now rewrite app_nil_r.
  - rewrite IH. unfold push. now rewrite <- app_assoc.
Qed.

Lemma getProducts_spec (p : page) :
  InventoryPage.getProducts p = map productOf (productItems p).
Proof. unfold InventoryPage.getProducts. now rewrite getProducts_loop_spec. Qed.

Lemma NaN_in_prices (texts : list (option jsstring)) (t : jsstring) :
  Some t ∈ texts -> t <> [] ->
  hasNumericPrefix (replace (str "$") [] t) = false ->
  NaN ∈ concat (map priceOf texts).
Proof.
  intros Hin Hne Hnum. apply parseFloat_NaN_iff in Hnum.
  induction texts as [|u texts IH]; [inversion Hin |].
  simpl. apply elem_of_app. apply elem_of_cons in Hin as [<- | Hin].
  - left. unfold priceOf. destruct t as [|c t]; [congruence |].
    cbn [truthy orEmpty]. rewrite Hnum. apply list_elem_of_here.
  - right. now apply IH.
Qed.

(** C9. [getProducts] builds one [Product] for every item and never fails:
    the price text, defaulted to the empty string when it is missing, has its
    first [$] removed and goes to [parseFloat] unguarded.  When the price text
    is missing or empty, or is a text no number can be read from, the record's
    price is [NaN].  The price list read by [getProductPrices], which the
    price-order checks sort, holds a [NaN] for every non-empty price text of
    that kind. *)
Theorem getProducts_price_NaN (p : page) :
  length (InventoryPage.getProducts p) = length (productItems p)
  /\ (forall (i : nat) (it : item),
        productItems p !! i = Some it ->
        exists prod : Product,
          InventoryPage.getProducts p !! i = Some prod
          /\ price prod
             = parseFloat (replace (str "$") [] (orEmpty (itemPrice it)))
          /\ (truthy (itemPrice it) = false -> price prod = NaN)
          /\ (hasNumericPrefix
                (replace (str "$") [] (orEmpty (itemPrice it))) = false ->
              price prod = NaN))
  /\ (forall t : jsstring,
        Some t ∈ productPrices p -> t <> [] ->
        hasNumericPrefix (replace (str "$") [] t) = false ->
        NaN ∈ InventoryPage.getProductPrices p).
Proof.
  rewrite getProducts_spec, getProductPrices_spec.
  split; [apply length_map | split].
  - intros i it Hit. exists (productOf it). split; [| split; [| split]].
    + now rewrite list_lookup_fmap, Hit.
    + reflexivity.
    + apply parseFloat_of_falsy.
    + intros H. now apply parseFloat_NaN_iff.
  - apply NaN_in_prices.
Qed.

Lemma getProducts_price_NaN_witness :
  truthy None = false
  /\ hasNumericPrefix (replace (str "$") [] (str "$N/A")) = false
  /\ (exists prod, InventoryPage.getProducts (pageWithItem None) !! 0%nat = Some prod
                   /\ price prod = NaN)
  /\ (exists prod, InventoryPage.getProducts (pageWithItem (Some (str "$N/A"))) !! 0%nat
                   = Some prod
                   /\ price prod = NaN)
  /\ NaN ∈ InventoryPage.getProductPrices (pageOf [] ["$7.99"; "$N/A"]%string).
Proof.
  split; [reflexivity |]. split; [reflexivity |].
  split; [| split].
  - destruct (getProducts_price_NaN (pageWithItem None)) as (_ & H & _).
    destruct (H 0%nat _ eq_refl) as (prod & Hprod & _ & Hmissing & _).
    exists prod. split; [exact Hprod | now apply Hmissing].
  - destruct (getProducts_price_NaN (pageWithItem (Some (str "$N/A")))) as (_ & H & _).
    destruct (H 0%nat _ eq_refl) as (prod & Hprod & _ & _ & Hbad).
    exists prod. split; [exact Hprod | now apply Hbad].
  - destruct (getProducts_price_NaN (pageOf [] ["$7.99"; "$N/A"]%string)) as (_ & _ & H).
    apply (H (str "$N/A")); [| discriminate | reflexivity].
    apply list_elem_of_further, list_elem_of_here.
Defined.

(* ===================================================================== *)
(** * Numbers: integers *)
(* ===================================================================== *)

(** An integer below [2^53] is a Number: converting it loses nothing. *)
Lemma roundRatio_exact (m : Z) :
  0 <= m < 2 ^ 53 -> roundRatio (m * 2 ^ unit_exp) 1 = Fin (m * 2 ^ unit_exp).
Proof.
  intros [Hm0 Hm]. unfold unit_exp.
  destruct (Z.eq_dec m 0) as [-> | Hne]; [reflexivity |].
  assert (H1074 : 0 < 2 ^ 1074) by (apply Z.pow_pos_nonneg; lia).
  assert (Hlogm : 0 <= Z.log2 m <= 52).
  { split; [apply Z.log2_nonneg |].
    assert (Z.log2 m < 53) by (apply Z.log2_lt_pow2; lia). lia. }
  set (a := m * 2 ^ 1074).
  assert (Ha : 0 < a) by (unfold a; nia).
  assert (Hloga : Z.log2 a = Z.log2 m + 1074).
  { unfold a. rewrite Z.log2_mul_pow2 by lia. lia. }
  set (k := Z.log2 a - (53 - 1)).
  assert (Hk : k = Z.log2 m + 1022) by (unfold k; lia).
  assert (Hsplit : a = (m * 2 ^ (52 - Z.log2 m)) * 2 ^ k).
  { unfold a. rewrite <- Z.mul_assoc, <- Z.pow_add_r by lia.
    f_equal. f_equal. lia. }
  assert (H2k : 0 < 2 ^ k) by (apply Z.pow_pos_nonneg; lia).
  assert (Hbig : 2 ^ 53 <= a).
  { unfold a. transitivity (1 * 2 ^ 1074); [| nia].
    rewrite Z.mul_1_l. apply Z.pow_le_mono_r; lia. }
  assert (Hlt : a < 2 ^ 2098).
  { unfold a. replace 2098 with (1024 + 1074) by lia.
    rewrite (Z.pow_add_r 2 1024 1074) by lia.
    assert (2 ^ 53 < 2 ^ 1024) by (apply Z.pow_lt_mono_r; lia). nia. }
  unfold roundRatio, mant_bits, overflow_threshold.
  rewrite (Z.abs_eq a) by lia.
  rewrite Z.mul_1_r, Z.div_1_r, Z.mul_1_l.
  replace (a <? 2 ^ 53) with false by (symmetry; apply Z.ltb_ge; lia).
  fold k.
  assert (Hround : roundNearestEven a (2 ^ k) * 2 ^ k = a).
  { assert (Hdiv : a / 2 ^ k = m * 2 ^ (52 - Z.log2 m))
      by (rewrite Hsplit; apply Z.div_mul; lia).
    assert (Hmod : a mod 2 ^ k = 0)
      by (rewrite Hsplit; apply Z.mod_mul; lia).
    unfold roundNearestEven. rewrite Hdiv, Hmod.
    replace (2 * 0 ?= 2 ^ k) with Lt by (symmetry; apply Z.compare_lt_iff; lia).
    now rewrite <- Hsplit. }
  rewrite Hround.
  replace (2 ^ 2098 <=? a) with false by (symmetry; apply Z.leb_gt; lia).
  rewrite (Z.sgn_pos a) by lia. now rewrite Z.mul_1_l.
Qed.

Lemma ofZ_exact (m : Z) : 0 <= m < 2 ^ 53 -> ofZ m = Fin (m * 2 ^ unit_exp).
Proof.
  intros Hm. unfold ofZ, ofDecimal.
  replace (0 <=? 0) with true by reflexivity.
  rewrite Z.pow_0_r, Z.mul_1_r. now apply roundRatio_exact.
Qed.

(** Rounding a non-negative value gives a non-negative Number. *)
Lemma roundRatio_nonneg (n d : Z) :
  0 <= n -> 0 <= d -> leb (Fin 0) (roundRatio n d) = true.
Proof.
  intros Hn Hd. unfold roundRatio. lazy zeta.
  destruct (overflow_threshold <=? _).
  - replace (n <? 0) with false by (symmetry; apply Z.ltb_ge; lia). reflexivity.
  - cbn [leb]. apply Z.leb_le.
    apply Z.mul_nonneg_nonneg; [destruct n; simpl; lia |].
    rewrite (Z.abs_eq n) by lia.
    destruct (n <? 2 ^ mant_bits * d).
    + pose proof (roundNearestEven_ge n d).
      pose proof (Z_div_nonneg_nonneg n d Hn Hd). lia.
    + set (k := Z.log2 (n / d) - (mant_bits - 1)).
      pose proof (Z.pow_nonneg 2 k ltac:(lia)) as H2k.
      pose proof (roundNearestEven_ge n (d * 2 ^ k)).
      pose proof (Z_div_nonneg_nonneg n (d * 2 ^ k) Hn ltac:(nia)). nia.
Qed.

Lemma ofZ_nonneg (m : Z) : 0 <= m -> leb (Fin 0) (ofZ m) = true.
Proof.
  intros Hm. unfold ofZ, ofDecimal.
  replace (0 <=? 0) with true by reflexivity.
  apply roundRatio_nonneg; [| lia].
  rewrite Z.pow_0_r, Z.mul_1_r.
  apply Z.mul_nonneg_nonneg; [lia | apply Z.pow_nonneg; lia].
Qed.

(* ===================================================================== *)
(** * parseInt on decimal numerals *)
(* ===================================================================== *)

Lemma isDigit_bounds (c : char) : isDigit c = true <-> 48 <= c <= 57.
Proof. unfold isDigit. rewrite andb_true_iff, !Z.leb_le. tauto. Qed.

Lemma digit_not_whitespace (c : char) : isDigit c = true -> isWhiteSpace c = false.
Proof.
  rewrite isDigit_bounds. intros Hc. unfold isWhiteSpace.
  rewrite !orb_false_iff, andb_false_iff, !Z.eqb_neq, !Z.leb_gt. lia.
Qed.

Lemma digitOf_digit (c : char) : isDigit c = true -> digitOf c = Some (c - 48).
Proof. unfold isDigit, digitOf. now intros ->. Qed.

Lemma isRadixDigit_digit (c : char) : isDigit c = true -> isRadixDigit 10 c = true.
Proof.
  intros Hc. unfold isRadixDigit. rewrite (digitOf_digit c Hc).
  apply isDigit_bounds in Hc. apply Z.ltb_lt. lia.
Qed.

Lemma digitOf_nonneg (c : char) : 0 <= default 0 (digitOf c).
Proof.
  unfold digitOf.
  destruct ((48 <=? c) && (c <=? 57)) eqn:E1;
    [| destruct ((97 <=? c) && (c <=? 122)) eqn:E2;
       [| destruct ((65 <=? c) && (c <=? 90)) eqn:E3]];
    simpl; try lia;
    match goal with H : _ && _ = true |- _ =>
      apply andb_true_iff in H; rewrite !Z.leb_le in H; lia end.
Qed.

Lemma radixValue_nonneg (R : Z) (ds : list char) :
  0 <= R -> 0 <= radixValue R ds.
Proof.
  intros HR. unfold radixValue.
  assert (H : forall acc, 0 <= acc ->
            0 <= fold_left (fun acc c => acc * R + default 0 (digitOf c)) ds acc).
  { induction ds as [|c ds IH]; intros acc Hacc; simpl; [assumption |].
    apply IH. pose proof (digitOf_nonneg c). nia. }
  apply H. lia.
Qed.

Lemma takeWhile_all {A} (f : A -> bool) (l : list A) :
  forallb f l = true -> takeWhile f l = l.
Proof.
  induction l as [|x l IH]; simpl; [reflexivity |].
  rewrite andb_true_iff. intros [-> H]. now rewrite IH.
Qed.

Lemma forallb_digits_radix (ds : list char) :
  forallb isDigit ds = true -> forallb (isRadixDigit 10) ds = true.
Proof.
  induction ds as [|c ds IH]; simpl; [reflexivity |].
  rewrite !andb_true_iff. intros [Hc H]. split; [now apply isRadixDigit_digit | auto].
Qed.

Lemma radixValue_digits (ds : list char) :
  forallb isDigit ds = true -> radixValue 10 ds = digitsValue ds.
Proof.
  unfold radixValue, digitsValue.
  assert (H : forall acc, forallb isDigit ds = true ->
            fold_left (fun acc c => acc * 10 + default 0 (digitOf c)) ds acc
            = fold_left (fun acc c => acc * 10 + (c - 48)) ds acc).
  { induction ds as [|c ds IH]; intros acc; simpl; [reflexivity |].
    rewrite andb_true_iff. intros [Hc H].
    rewrite (digitOf_digit c Hc). simpl. now apply IH. }
  apply H.
Qed.

Lemma digitsValue_bounds (ds : list char) :
  forallb isDigit ds = true ->
  0 <= digitsValue ds < 10 ^ Z.of_nat (length ds).
Proof.
  unfold digitsValue.
  assert (H : forall acc, 0 <= acc -> forallb isDigit ds = true ->
            0 <= fold_left (fun acc c => acc * 10 + (c - 48)) ds acc
              < (acc + 1) * 10 ^ Z.of_nat (length ds)).
  { induction ds as [|c ds IH]; intros acc Hacc Hds;
      cbn [fold_left forallb length] in *.
    - change (Z.of_nat 0) with 0. rewrite Z.pow_0_r. lia.
    - apply andb_true_iff in Hds as [Hc Hds]. apply isDigit_bounds in Hc.
      specialize (IH (acc * 10 + (c - 48)) ltac:(lia) Hds).
      rewrite Nat2Z.inj_succ, Z.pow_succ_r by lia.
      assert (0 < 10 ^ Z.of_nat (length ds)) by (apply Z.pow_pos_nonneg; lia).
      nia. }
  intros Hds. specialize (H 0 ltac:(lia) Hds). lia.
Qed.

(** What [parseInt(t, 10)] does with a text that, after leading white space,
    starts with a decimal digit. *)
Lemma parseInt_leading_digit (t : jsstring) (c : char) (r : jsstring) :
  trimStart t = c :: r -> isDigit c = true ->
  parseInt t 10 = ofZ (radixValue 10 (takeWhile (isRadixDigit 10) (c :: r))).
Proof.
  intros Ht Hc. unfold parseInt. rewrite Ht.
  pose proof (proj1 (isDigit_bounds c) Hc) as Hb.
  unfold splitSign.
  replace (c =? 45) with false by (symmetry; apply Z.eqb_neq; lia).
  replace (c =? 43) with false by (symmetry; apply Z.eqb_neq; lia).
  replace ((10 =? 0) || (2 <=? 10) && (10 <=? 36)) with true by reflexivity.
  replace (10 =? 0) with false by reflexivity.
  replace (10 =? 16) with false by reflexivity.
  cbn [orb andb takeWhile]. rewrite (isRadixDigit_digit c Hc). reflexivity.
Qed.

Lemma trimStart_digits (ds : list char) :
  forallb isDigit ds = true -> trimStart ds = ds.
Proof.
  destruct ds as [|c ds]; [reflexivity |].
  unfold trimStart. cbn [dropWhile forallb].
  rewrite andb_true_iff. intros [Hc _].
  now rewrite (digit_not_whitespace c Hc).
Qed.

Lemma parseInt_digits (ds : list char) :
  ds <> [] -> forallb isDigit ds = true -> (length ds <= 15)%nat ->
  parseInt ds 10 = Fin (digitsValue ds * 2 ^ unit_exp).
Proof.
  intros Hne Hds Hlen.
  destruct ds as [|c r]; [congruence |].
  assert (Hc : isDigit c = true)
    by (cbn [forallb] in Hds; now apply andb_true_iff in Hds).
  rewrite (parseInt_leading_digit (c :: r) c r)
    by (try apply trimStart_digits; assumption).
  set (ds := c :: r) in *.
  rewrite takeWhile_all by now apply forallb_digits_radix.
  rewrite radixValue_digits by assumption.
  apply ofZ_exact.
  pose proof (digitsValue_bounds ds Hds) as [H0 H1].
  split; [assumption |].
  eapply Z.lt_le_trans; [eassumption |].
  transitivity (10 ^ 15); [apply Z.pow_le_mono_r; lia | ].
  vm_compute. discriminate.
Qed.

(* ===================================================================== *)
(** * BasePage.getCartItemCount *)
(* ===================================================================== *)

Lemma getCartItemCount_shown (p : page) (t : jsstring) :
  isVisible (cartBadge p) = true -> badgeText (cartBadge p) = Some t ->
  t <> [] -> BasePage.getCartItemCount p = parseInt t 10.
Proof.
  intros Hv Ht Hne. unfold BasePage.getCartItemCount. rewrite Hv, Ht.
  destruct t; [congruence | reflexivity].
Qed.

(** The count is what [parseInt] makes of the badge text: a shown badge
    whose text is [-1] gives a negative count, and one whose text is [abc]
    gives [NaN]. *)
Lemma getCartItemCount_negative_or_NaN :
  BasePage.getCartItemCount (pageWithBadge "-1") = minusOne
  /\ ltb minusOne (Fin 0) = true
  /\ BasePage.getCartItemCount (pageWithBadge "abc") = NaN.
Proof. split; [| split]; vm_compute; reflexivity. Qed.

(** C10 (amended). [getCartItemCount] returns a Number for every page and
    raises nothing.  It returns [0] when the badge is not visible and when
    the badge has no text or an empty one.  When the shown badge text is a
    decimal numeral of at most 15 digits the result is the non-negative
    integer it denotes, and whenever the text starts, after white space, with
    a digit the result is not negative. *)
Theorem getCartItemCount_empty_cart (p : page) :
  (isVisible (cartBadge p) = false -> BasePage.getCartItemCount p = Fin 0)
  /\ (truthy (badgeText (cartBadge p)) = false ->
      BasePage.getCartItemCount p = Fin 0)
  /\ (forall ds : jsstring,
        isVisible (cartBadge p) = true ->
        badgeText (cartBadge p) = Some ds ->
        ds <> [] -> forallb isDigit ds = true -> (length ds <= 15)%nat ->
        BasePage.getCartItemCount p = Fin (digitsValue ds * 2 ^ unit_exp)
        /\ 0 <= digitsValue ds)
  /\ (forall (t : jsstring) (c : char) (r : jsstring),
        isVisible (cartBadge p) = true ->
        badgeText (cartBadge p) = Some t ->
        trimStart t = c :: r -> isDigit c = true ->
        leb (Fin 0) (BasePage.getCartItemCount p) = true).
Proof.
  split; [| split; [| split]].
  - intros Hv. unfold BasePage.getCartItemCount. now rewrite Hv.
  - intros Ht. unfold BasePage.getCartItemCount. rewrite Ht.
    now destruct (negb (isVisible (cartBadge p))).
  - intros ds Hv Ht Hne Hds Hlen.
    rewrite (getCartItemCount_shown p ds Hv Ht Hne).
    split; [now apply parseInt_digits | now apply digitsValue_bounds].
  - intros t c r Hv Ht Htrim Hc.
    assert (Hne : t <> []) by (intros ->; discriminate).
    rewrite (getCartItemCount_shown p t Hv Ht Hne).
    rewrite (parseInt_leading_digit t c r Htrim Hc).
    apply ofZ_nonneg, radixValue_nonneg. lia.
Qed.

Lemma getCartItemCount_empty_cart_witness :
  isVisible (cartBadge (pageOf [] [])) = false
  /\ BasePage.getCartItemCount (pageOf [] []) = Fin 0
  /\ forallb isDigit (str "3") = true
  /\ BasePage.getCartItemCount (pageWithBadge "3") = Fin (3 * 2 ^ unit_exp)
  /\ trimStart (str " 12 items") = str "12 items"
  /\ leb (Fin 0) (BasePage.getCartItemCount (pageWithBadge " 12 items")) = true.
Proof.
  destruct (getCartItemCount_empty_cart (pageOf [] [])) as (Hhidden & _).
  destruct (getCartItemCount_empty_cart (pageWithBadge "3")) as (_ & _ & Hnum & _).
  destruct (getCartItemCount_empty_cart (pageWithBadge " 12 items"))
    as (_ & _ & _ & Hlead).
  split; [reflexivity |].
  split; [apply Hhidden; reflexivity |].
  split; [reflexivity |].
  split; [apply (Hnum (str "3")); try reflexivity; [discriminate | simpl; lia] |].
  split; [reflexivity |].
  apply (Hlead (str " 12 items") 49 (str "2 items")); reflexivity.
Defined.

(* ===================================================================== *)
(** * Normalization *)
(* ===================================================================== *)

Lemma dropWhile_idem {A} (f : A -> bool) (l : list A) :
  dropWhile f (dropWhile f l) = dropWhile f l.
Proof.
  induction l as [|x l IH]; simpl; [reflexivity |].
  destruct (f x) eqn:E; [assumption |]. simpl. now rewrite E.
Qed.

Lemma dropWhile_head {A} (f : A -> bool) (l : list A) (c : A) (r : list A) :
  dropWhile f l = c :: r -> f c = false.
Proof.
  induction l as [|x l IH]; simpl; [discriminate |].
  destruct (f x) eqn:E; [assumption |]. congruence.
Qed.

Lemma dropWhile_app_last {A} (f : A -> bool) (l : list A) (c : A) :
  f c = false -> dropWhile f (l ++ [c]) = dropWhile f l ++ [c].
Proof.
  intros Hc. induction l as [|x l IH]; simpl; [now rewrite Hc |].
  destruct (f x); [assumption | reflexivity].
Qed.

Lemma trimEnd_head (c : char) (u : jsstring) :
  isWhiteSpace c = false ->
  trimEnd (c :: u) = c :: rev (dropWhile isWhiteSpace (rev u)).
Proof.
  intros Hc. unfold trimEnd. cbn [rev].
  rewrite dropWhile_app_last by assumption. apply rev_unit.
Qed.

Lemma trimEnd_idem (s : jsstring) : trimEnd (trimEnd s) = trimEnd s.
Proof. unfold trimEnd. now rewrite rev_involutive, dropWhile_idem. Qed.

(** Trimming a trimmed string changes nothing. *)
Lemma trim_idem (s : jsstring) : trim (trim s) = trim s.
Proof.
  unfold trim at 2 3.
  destruct (trimStart s) as [|c u] eqn:E; [reflexivity |].
  apply dropWhile_head in E.
  rewrite (trimEnd_head c u E). unfold trim, trimStart. cbn [dropWhile].
  rewrite E, <- (trimEnd_head c u E). apply trimEnd_idem.
Qed.

Lemma nameOf_normalized (l : list jsstring) :
  Forall (fun n => n <> [] /\ trim n = n) l ->
  concat (map nameOf (map Some l)) = l.
Proof.
  induction 1 as [|n l [Hne Htrim] _ IH]; [reflexivity |].
  cbn [map concat]. rewrite IH. unfold nameOf.
  destruct n as [|c n]; [congruence |]. cbn [truthy orEmpty]. now rewrite Htrim.
Qed.

Lemma names_normalized (texts : list (option jsstring)) :
  (forall t, Some t ∈ texts -> t <> [] -> trim t <> []) ->
  Forall (fun n => n <> [] /\ trim n = n) (concat (map nameOf texts)).
Proof.
  induction texts as [|u texts IH]; intros H; [constructor |].
  cbn [map concat]. apply Forall_app. split.
  - unfold nameOf. destruct u as [[|c t]|]; cbn [truthy orEmpty]; constructor;
      [| constructor].
    split; [apply H; [apply list_elem_of_here | discriminate] | apply trim_idem].
  - apply IH. intros t Ht. apply H. now apply list_elem_of_further.
Qed.

Lemma getProductNames_idem (p : page) :
  (forall t, Some t ∈ productNames p -> t <> [] -> trim t <> []) ->
  InventoryPage.getProductNames (withNames p (InventoryPage.getProductNames p))
  = InventoryPage.getProductNames p.
Proof.
  intros H. rewrite !getProductNames_spec. cbn [withNames productNames].
  now apply nameOf_normalized, names_normalized.
Qed.

Lemma replace_dollar_absent (s : jsstring) :
  dollars s = 0%nat -> replace (str "$") [] s = s.
Proof.
  change (str "$") with [36]. unfold dollars.
  induction s as [|c s IH]; [reflexivity |].
  cbn [count_occ replace startsWith length].
  destruct (Z.eq_dec c 36) as [-> | Hc]; [discriminate |].
  intros H. replace (36 =? c) with false by (symmetry; apply Z.eqb_neq; lia).
  cbn [andb]. now rewrite IH.
Qed.

Lemma replace_dollar_count (s : jsstring) :
  (dollars s <= 1)%nat -> dollars (replace (str "$") [] s) = 0%nat.
Proof.
  change (str "$") with [36]. unfold dollars.
  induction s as [|c s IH]; [reflexivity |].
  cbn [count_occ replace startsWith length].
  destruct (Z.eq_dec c 36) as [-> | Hc].
  - intros H. replace (36 =? 36) with true by reflexivity.
    cbn [andb app length drop]. rewrite drop_0. lia.
  - intros H. replace (36 =? c) with false by (symmetry; apply Z.eqb_neq; lia).
    cbn [andb count_occ]. destruct (Z.eq_dec c 36); [contradiction | auto].
Qed.

(** Removing the currency symbol from a text with at most one changes nothing
    the second time. *)
Lemma replace_dollar_idem (t : jsstring) :
  (dollars t <= 1)%nat ->
  replace (str "$") [] (replace (str "$") [] t) = replace (str "$") [] t.
Proof. intros H. now apply replace_dollar_absent, replace_dollar_count. Qed.

Lemma replace_dollar_nonempty (t : jsstring) :
  t <> [] -> t <> str "$" -> replace (str "$") [] t <> [].
Proof.
  change (str "$") with [36]. destruct t as [|c t]; [congruence |].
  intros _ H. cbn [replace startsWith length].
  destruct (Z.eqb_spec 36 c) as [<- | Hc]; cbn [andb]; [| discriminate].
  cbn [app drop]. rewrite drop_0.
  destruct t; [exfalso; apply H; reflexivity | discriminate].
Qed.

Lemma getProductPrices_idem (p : page) :
  (forall t, Some t ∈ productPrices p -> t <> [] ->
             (dollars t <= 1)%nat /\ t <> str "$") ->
  InventoryPage.getProductPrices (withPriceTexts p (normalizedPriceTexts p))
  = InventoryPage.getProductPrices p.
Proof.
  rewrite !getProductPrices_spec. unfold normalizedPriceTexts.
  cbn [withPriceTexts productPrices].
  induction (productPrices p) as [|u texts IH]; intros H; [reflexivity |].
  cbn [map concat]. rewrite !map_app, concat_app, IH
    by (intros t Ht; apply H; now apply list_elem_of_further).
  f_equal. unfold priceOf at 2.
  destruct u as [[|c t]|]; cbn [truthy orEmpty]; try reflexivity.
  destruct (H (c :: t)) as [Hcount Hne];
    [apply list_elem_of_here | discriminate |].
  cbn [map concat]. rewrite app_nil_r. unfold priceOf.
  pose proof (replace_dollar_nonempty (c :: t) ltac:(discriminate) Hne) as Hne'.
  destruct (replace (str "$") [] (c :: t)) as [|c' t'] eqn:E; [congruence |].
  cbn [truthy orEmpty]. rewrite <- E, replace_dollar_idem by assumption.
  reflexivity.
Qed.

(** A name that is white space only is not a fixed point: the first pass
    keeps it, trimmed to the empty string, and the second pass drops the
    empty string.  The order checks then differ: [["a", "", "b"]] is not in
    ascending order, [["a", "b"]] is.  Likewise a second [$] survives the
    first pass over a price text and not the second. *)
Lemma normalization_not_idempotent :
  let p := pageOf [" "]%string [] in
  let q := pageOf ["a"; " "; "b"]%string [] in
  InventoryPage.getProductNames p = [[]]
  /\ InventoryPage.getProductNames (withNames p (InventoryPage.getProductNames p)) = []
  /\ InventoryPage.areProductsSortedAZ codeUnitCompare q = false
  /\ InventoryPage.areProductsSortedAZ codeUnitCompare
       (withNames q (InventoryPage.getProductNames q)) = true
  /\ replace (str "$") [] (str "$$5") = str "$5"
  /\ replace (str "$") [] (replace (str "$") [] (str "$$5")) = str "5".
Proof. repeat split; vm_compute; reflexivity. Qed.

(** C7 (amended). Trimming is idempotent.  Normalizing the names a second
    time changes nothing when no name text is white space only, and the A-Z
    and Z-A checks then give the same answer on the page and on its
    normalized names.  Removing the currency symbol is idempotent on a text
    with at most one [$]; when every price text has at most one [$] and
    something besides it, reading the prices from the stripped texts gives
    the same prices, and the two price checks give the same answer. *)
Theorem normalization_idempotent_on_wellformed :
  (forall s : jsstring, trim (trim s) = trim s)
  /\ (forall (localeCompare : jsstring -> jsstring -> number) (p : page),
        (forall t, Some t ∈ productNames p -> t <> [] -> trim t <> []) ->
        let p' := withNames p (InventoryPage.getProductNames p) in
        InventoryPage.getProductNames p' = InventoryPage.getProductNames p
        /\ InventoryPage.areProductsSortedAZ localeCompare p'
           = InventoryPage.areProductsSortedAZ localeCompare p
        /\ InventoryPage.areProductsSortedZA localeCompare p'
           = InventoryPage.areProductsSortedZA localeCompare p)
  /\ (forall t : jsstring,
        (dollars t <= 1)%nat ->
        replace (str "$") [] (replace (str "$") [] t) = replace (str "$") [] t)
  /\ (forall p : page,
        (forall t, Some t ∈ productPrices p -> t <> [] ->
                   (dollars t <= 1)%nat /\ t <> str "$") ->
        let p' := withPriceTexts p (normalizedPriceTexts p) in
        InventoryPage.getProductPrices p' = InventoryPage.getProductPrices p
        /\ InventoryPage.areProductsSortedByPriceLowToHigh p'
           = InventoryPage.areProductsSortedByPriceLowToHigh p
        /\ InventoryPage.areProductsSortedByPriceHighToLow p'
           = InventoryPage.areProductsSortedByPriceHighToLow p).
Proof.
  split; [apply trim_idem |]. split; [| split; [apply replace_dollar_idem |]].
  - intros localeCompare p H p'.
    pose proof (getProductNames_idem p H) as E. fold p' in E.
    unfold InventoryPage.areProductsSortedAZ, InventoryPage.areProductsSortedZA.
    rewrite E. auto.
  - intros p H p'.
    pose proof (getProductPrices_idem p H) as E. fold p' in E.
    unfold InventoryPage.areProductsSortedByPriceLowToHigh,
      InventoryPage.areProductsSortedByPriceHighToLow.
    rewrite E. auto.
Qed.

Lemma normalization_idempotent_on_wellformed_witness :
  let p := pageOf ["  Sauce Labs Backpack "; "Sauce Labs Onesie"]%string
                  ["$29.99"; "7.99"]%string in
  (forall t, Some t ∈ productNames p -> t <> [] -> trim t <> [])
  /\ (forall t, Some t ∈ productPrices p -> t <> [] ->
                (dollars t <= 1)%nat /\ t <> str "$")
  /\ InventoryPage.getProductNames (withNames p (InventoryPage.getProductNames p))
     = [str "Sauce Labs Backpack"; str "Sauce Labs Onesie"]
  /\ InventoryPage.getProductPrices (withPriceTexts p (normalizedPriceTexts p))
     = InventoryPage.getProductPrices p.
Proof.
  intros p.
  assert (Hn : forall t, Some t ∈ productNames p -> t <> [] -> trim t <> []).
  { intros t Ht _. cbn in Ht.
    repeat (apply elem_of_cons in Ht as [Ht | Ht];
            [injection Ht as ->; discriminate |]).
    inversion Ht. }
  assert (Hp : forall t, Some t ∈ productPrices p -> t <> [] ->
                         (dollars t <= 1)%nat /\ t <> str "$").
  { intros t Ht _. cbn in Ht.
    repeat (apply elem_of_cons in Ht as [Ht | Ht];
            [injection Ht as ->; split; [vm_compute; lia | discriminate] |]).
    inversion Ht. }
  destruct normalization_idempotent_on_wellformed as (_ & Hnames & _ & Hprices).
  destruct (Hnames codeUnitCompare p Hn) as (En & _).
  destruct (Hprices p Hp) as (Ep & _).
  split; [exact Hn |]. split; [exact Hp |].
  split; [rewrite En; reflexivity | exact Ep].
Defined.

(* ===================================================================== *)
(** * The store: what a check reads and what it leaves behind *)
(* ===================================================================== *)

Section StoreFacts.
Context {A : Type}.







End StoreFacts.




















(* ===================================================================== *)
(** * getProductNames: what comes back *)
(* ===================================================================== *)

Lemma trim_no_leading (s : jsstring) (c : char) (r : jsstring) :
  trim s = c :: r -> isWhiteSpace c = false.
Proof.
  unfold trim. destruct (trimStart s) as [|c' u] eqn:E; [discriminate |].
  apply dropWhile_head in E. rewrite (trimEnd_head c' u E).
  intros H; injection H as <- _. exact E.
Qed.

Lemma trim_no_trailing (s : jsstring) (r : jsstring) (c : char) :
  trim s = r ++ [c] -> isWhiteSpace c = false.
Proof.
  unfold trim, trimEnd. intros H.
  apply (f_equal (@rev char)) in H. rewrite rev_involutive, rev_unit in H.
  eapply dropWhile_head; eassumption.
Qed.

Lemma concat_nameOf (texts : list (option jsstring)) :
  concat (map nameOf texts)
  = map (fun t => trim (orEmpty t)) (List.filter truthy texts).
Proof.
  induction texts as [|t texts IH]; [reflexivity |].
  cbn [map concat List.filter]. unfold nameOf at 1.
  destruct (truthy t); cbn [map app]; now rewrite IH.
Qed.

Lemma filter_length_all {A} (f : A -> bool) (l : list A) :
  (length (List.filter f l) <= length l)%nat
  /\ (length (List.filter f l) = length l <-> Forall (fun x => f x = true) l).
Proof.
  induction l as [|x l [IHle IHeq]]; cbn [List.filter length].
  - split; [lia | split; [constructor | reflexivity]].
  - destruct (f x) eqn:E; cbn [length]; split; try lia.
    + split.
      * intros H. constructor; [assumption | apply IHeq; lia].
      * intros H. inversion H; subst. f_equal. now apply IHeq.
    + split; [lia |]. intros H. inversion H; congruence.
Qed.

(** X1. [getProductNames] returns, in document order, the trimmed text of the
    name elements whose text is neither [null] nor empty.  So it is never
    longer than the number of elements, and as long exactly when no element
    is skipped; every name it returns is a fixed point of [trim], with no
    white space at either end. *)
Theorem getProductNames_trimmed_in_order (p : page) :
  let names := InventoryPage.getProductNames p in
  names = map (fun t => trim (orEmpty t)) (List.filter truthy (productNames p))
  /\ (length names <= length (productNames p))%nat
  /\ (length names = length (productNames p)
      <-> Forall (fun t => truthy t = true) (productNames p))
  /\ Forall (fun n => trim n = n
                      /\ (forall c r, n = c :: r -> isWhiteSpace c = false)
                      /\ (forall r c, n = r ++ [c] -> isWhiteSpace c = false))
            names.
Proof.
  intros names.
  assert (E : names = map (fun t => trim (orEmpty t))
                          (List.filter truthy (productNames p))).
  { unfold names. now rewrite getProductNames_spec, concat_nameOf. }
  destruct (filter_length_all truthy (productNames p)) as [Hle Heq].
  split; [exact E |]. rewrite E, length_map.
  split; [exact Hle |]. split; [exact Heq |].
  apply Forall_forall. intros n Hn.
  apply list_elem_of_fmap in Hn as (t & -> & _).
  split; [apply trim_idem |]. split.
  - intros c r. apply trim_no_leading.
  - intros r c. apply trim_no_trailing.
Qed.

(* ===================================================================== *)
(** * String.prototype.includes *)
(* ===================================================================== *)

Lemma startsWith_iff (pat s : jsstring) :
  startsWith pat s = true <-> exists post, s = pat ++ post.
Proof.
  revert s; induction pat as [|c pat IH]; intros s.
  - split; [intros _; now exists s | reflexivity].
  - destruct s as [|d s]; cbn [startsWith].
    + split; [discriminate | intros [post H]; discriminate].
    + rewrite andb_true_iff, Z.eqb_eq, IH. split.
      * intros [-> [post ->]]. now exists post.
      * intros [post H]. injection H as -> ->. split; [reflexivity | now exists post].
Qed.

Lemma includes_unfold (search s : jsstring) :
  includes search s
  = startsWith search s
    || match s with
       | [] => false
       | _ :: s' => includes search s'
       end.
Proof. destruct s; reflexivity. Qed.

(** [includes] searches every position. *)
Lemma includes_iff (search s : jsstring) :
  includes search s = true <-> exists pre post, s = pre ++ search ++ post.
Proof.
  induction s as [|c s IH]; rewrite includes_unfold, orb_true_iff, startsWith_iff.
  - split.
    + intros [[post H] | H]; [| discriminate]. now exists [], post.
    + intros (pre & post & H). left.
      destruct pre; [now exists post | discriminate].
  - rewrite IH. split.
    + intros [[post H] | (pre & post & H)].
      * now exists [], post.
      * exists (c :: pre), post. now rewrite H.
    + intros (pre & post & H). destruct pre as [|d pre].
      * left. now exists post.
      * right. injection H as -> ->. now exists pre, post.
Qed.

(** X2. [isDisplayed] accepts every URL when it is given no path or an empty
    one; given a path, it accepts exactly the URLs in which the path occurs
    somewhere, whatever stands before or after it. *)
Theorem isDisplayed_accepts (currentUrl : jsstring) :
  BasePage.isDisplayed currentUrl None = true
  /\ BasePage.isDisplayed currentUrl (Some []) = true
  /\ (forall path : jsstring,
        path <> [] ->
        (BasePage.isDisplayed currentUrl (Some path) = true
         <-> exists pre post, currentUrl = pre ++ path ++ post)).
Proof.
  split; [reflexivity |]. split; [reflexivity |].
  intros path Hne. unfold BasePage.isDisplayed.
  destruct path as [|c path]; [congruence |]. cbn [truthy orEmpty].
  apply includes_iff.
Qed.

(* ===================================================================== *)
(** * getProducts: the product id *)
(* ===================================================================== *)

Lemma replace_unfold (pat rep s : jsstring) :
  replace pat rep s
  = if startsWith pat s then rep ++ drop (length pat) s
    else match s with
         | [] => []
         | c :: s' => c :: replace pat rep s'
         end.
Proof. destruct s; reflexivity. Qed.





(* ===================================================================== *)
(** * getProducts beside getProductNames and getProductPrices *)
(* ===================================================================== *)

Lemma concat_nameOf_all (texts : list (option jsstring)) :
  Forall (fun t => truthy t = true) texts ->
  concat (map nameOf texts) = map (fun t => trim (orEmpty t)) texts.
Proof.
  induction 1 as [|t texts Ht _ IH]; [reflexivity |].
  cbn [map concat]. unfold nameOf at 1. now rewrite Ht, IH.
Qed.

Lemma concat_priceOf_all (texts : list (option jsstring)) :
  Forall (fun t => truthy t = true) texts ->
  concat (map priceOf texts)
  = map (fun t => parseFloat (replace (str "$") [] (orEmpty t))) texts.
Proof.
  induction 1 as [|t texts Ht _ IH]; [reflexivity |].
  cbn [map concat]. unfold priceOf at 1. now rewrite Ht, IH.
Qed.

(** X4. On a page where the name and price elements are those of the product
    items, one each, and none of them is empty, the three extraction methods
    agree index by index: the names of [getProductNames] are the trimmed
    names of the records of [getProducts], whose names are not trimmed, and
    the prices of [getProductPrices] are the records' prices. *)
Theorem getProducts_agrees_with_lists (p : page) :
  productNames p = map itemName (productItems p) ->
  productPrices p = map itemPrice (productItems p) ->
  Forall (fun it => truthy (itemName it) = true
                    /\ truthy (itemPrice it) = true) (productItems p) ->
  InventoryPage.getProductNames p
  = map (fun prod => trim (name prod)) (InventoryPage.getProducts p)
  /\ InventoryPage.getProductPrices p = map price (InventoryPage.getProducts p)
  /\ length (InventoryPage.getProductNames p)
     = length (InventoryPage.getProductPrices p).
Proof.
  intros Hn Hp Hall.
  assert (En : InventoryPage.getProductNames p
               = map (fun prod => trim (name prod)) (InventoryPage.getProducts p)).
  { rewrite getProductNames_spec, getProducts_spec, Hn, concat_nameOf_all.
    - rewrite !map_map. reflexivity.
    - apply Forall_map. eapply Forall_impl; [exact Hall |]. now intros it [H _]. }
  assert (Ep : InventoryPage.getProductPrices p
               = map price (InventoryPage.getProducts p)).
  { rewrite getProductPrices_spec, getProducts_spec, Hp, concat_priceOf_all.
    - rewrite !map_map. reflexivity.
    - apply Forall_map. eapply Forall_impl; [exact Hall |]. now intros it [_ H]. }
  split; [exact En |]. split; [exact Ep |].
  now rewrite En, Ep, !length_map.
Qed.

Lemma getProducts_agrees_with_lists_witness :
  let it := {| itemName := Some (str " Sauce Labs Onesie ");
               itemDesc := Some (str "Rib snap infant onesie");
               itemPrice := Some (str "$7.99");
               buttonDataTest := Some (str "add-to-cart-sauce-labs-onesie") |} in
  let p := {| productNames := [itemName it]; productPrices := [itemPrice it];
              productItems := [it];
              cartBadge := {| isVisible := false; badgeText := None |} |} in
  productNames p = map itemName (productItems p)
  /\ productPrices p = map itemPrice (productItems p)
  /\ InventoryPage.getProductNames p = [str "Sauce Labs Onesie"]
  /\ map name (InventoryPage.getProducts p) = [str " Sauce Labs Onesie "]
  /\ InventoryPage.getProductPrices p = map price (InventoryPage.getProducts p).
Proof.
  intros it p.
  assert (Hall : Forall (fun it => truthy (itemName it) = true
                                   /\ truthy (itemPrice it) = true)
                        (productItems p))
    by (repeat constructor).
  destruct (getProducts_agrees_with_lists p eq_refl eq_refl Hall) as (En & Ep & _).
  split; [reflexivity |]. split; [reflexivity |].
  split; [rewrite En; reflexivity |]. split; [reflexivity | exact Ep].
Defined.

(* ===================================================================== *)
(** * Prices as they are displayed *)
(* ===================================================================== *)

Lemma roundNearestEven_error (a b : Z) :
  0 < b -> 2 * Z.abs (roundNearestEven a b * b - a) <= b.
Proof.
  intros Hb. unfold roundNearestEven.
  pose proof (Z.div_mod a b ltac:(lia)) as Hdm.
  pose proof (Z.mod_pos_bound a b Hb) as Hr.
  destruct (Z.compare_spec (2 * (a mod b)) b) as [E | E | E];
    [destruct (Z.even (a / b)) | |]; nia.
Qed.

Lemma roundNearestEven_le (a b : Z) : roundNearestEven a b <= a / b + 1.
Proof.
  unfold roundNearestEven.
  destruct (2 * (a mod b) ?= b); [destruct (Z.even (a / b)) | |]; lia.
Qed.

(** A displayed amount of [n] cents below [10^15] parses to a finite Number
    within less than half a unit of [n / 100]. *)
Lemma cents_rounding (n : Z) :
  0 <= n < 10 ^ 15 ->
  exists x : Z,
    ofDecimal n (-2) = Fin x
    /\ 2 * Z.abs (100 * x - n * 2 ^ unit_exp) < 2 ^ unit_exp.
Proof.
  intros [Hn0 Hn]. unfold ofDecimal.
  replace (0 <=? -2) with false by reflexivity.
  replace (10 ^ (- -2)) with 100 by reflexivity.
  unfold unit_exp.
  assert (HU : 2 ^ 1074 = 2 ^ 53 * 2 ^ 1021) by (rewrite <- Z.pow_add_r by lia; reflexivity).
  assert (HT : 2 ^ 2098 = 2 ^ 1024 * 2 ^ 1074) by (rewrite <- Z.pow_add_r by lia; reflexivity).
  assert (H1024 : 2 ^ 60 < 2 ^ 1024) by (apply Z.pow_lt_mono_r; lia).
  assert (H1021 : 2 ^ 10 < 2 ^ 1021) by (apply Z.pow_lt_mono_r; lia).
  assert (H15 : 10 ^ 15 < 2 ^ 52) by reflexivity.
  assert (H53 : 2 ^ 53 = 2 * 2 ^ 52) by reflexivity.
  assert (H60 : 2 ^ 60 = 256 * 2 ^ 52) by reflexivity.
  assert (H10 : 2 ^ 10 = 1024) by reflexivity.
  assert (H52 : 0 < 2 ^ 52) by reflexivity.
  set (U := 2 ^ 1074) in *. set (N := n * U).
  assert (HUpos : 2048 * 2 ^ 52 < U) by nia.
  assert (HN : 0 <= N) by (unfold N; nia).
  assert (HNlt : N < 2 ^ 52 * U) by (unfold N; nia).
  unfold roundRatio, mant_bits, overflow_threshold. rewrite (Z.abs_eq N) by lia.
  destruct (N <? 2 ^ 53 * 100) eqn:Esmall.
  - apply Z.ltb_lt in Esmall.
    pose proof (roundNearestEven_error N 100 ltac:(lia)) as Herr.
    pose proof (roundNearestEven_le N 100) as Hle.
    pose proof (roundNearestEven_ge N 100) as Hge.
    assert (Hq : 0 <= N / 100 <= 2 ^ 53)
      by (split; [apply Z.div_pos; lia | apply Z.div_le_upper_bound; lia]).
    set (mag := roundNearestEven N 100) in *.
    replace (2 ^ 2098 <=? mag) with false by (symmetry; apply Z.leb_gt; nia).
    exists (Z.sgn N * mag). split; [reflexivity |].
    destruct (Z.eq_dec N 0) as [E0 | Hne].
    + rewrite E0. cbn [Z.sgn]. lia.
    + rewrite (Z.sgn_pos N) by lia. lia.
  - apply Z.ltb_ge in Esmall.
    assert (Hq : 2 ^ 53 <= N / 100) by (apply Z.div_le_lower_bound; lia).
    set (k := Z.log2 (N / 100) - (53 - 1)).
    assert (Hlog : 53 <= Z.log2 (N / 100)) by (apply Z.log2_le_pow2; lia).
    assert (Hk : 0 <= k) by (unfold k; lia).
    assert (H2k : 0 < 2 ^ k) by (apply Z.pow_pos_nonneg; lia).
    assert (Hspec : 2 ^ 52 * 2 ^ k <= N / 100).
    { rewrite <- Z.pow_add_r by lia. replace (52 + k) with (Z.log2 (N / 100)) by (unfold k; lia).
      apply Z.log2_spec. lia. }
    assert (Hb : 2 ^ 52 * (100 * 2 ^ k) <= N).
    { pose proof (Z.mul_div_le N 100 ltac:(lia)). nia. }
    pose proof (roundNearestEven_error N (100 * 2 ^ k) ltac:(lia)) as Herr.
    set (r := roundNearestEven N (100 * 2 ^ k)) in *.
    assert (Hbu : 100 * 2 ^ k < U) by nia.
    assert (Hmag : 0 < r * 2 ^ k) by nia.
    replace (2 ^ 2098 <=? r * 2 ^ k) with false by (symmetry; apply Z.leb_gt; nia).
    exists (Z.sgn N * (r * 2 ^ k)). split; [reflexivity |].
    rewrite (Z.sgn_pos N) by lia. lia.
Qed.

(** Below [10^15] cents, a larger amount parses to a larger Number. *)
Lemma cents_strictly_monotone (n m : Z) :
  0 <= n -> n < m -> m < 10 ^ 15 ->
  ltb (ofDecimal n (-2)) (ofDecimal m (-2)) = true.
Proof.
  intros Hn Hnm Hm.
  destruct (cents_rounding n ltac:(lia)) as (x & -> & Hx).
  destruct (cents_rounding m ltac:(lia)) as (y & -> & Hy).
  cbn [ltb]. apply Z.ltb_lt.
  assert (HU : 0 < 2 ^ unit_exp) by (apply Z.pow_pos_nonneg; unfold unit_exp; lia).
  set (U := 2 ^ unit_exp) in *. nia.
Qed.

Lemma takeWhile_app_stop {A} (f : A -> bool) (l r : list A) :
  forallb f l = true ->
  match r with [] => true | c :: _ => negb (f c) end = true ->
  takeWhile f (l ++ r) = l /\ dropWhile f (l ++ r) = r.
Proof.
  intros Hl Hr. induction l as [|x l IH]; cbn [app forallb] in *.
  - destruct r as [|c r]; [split; reflexivity |].
    apply negb_true_iff in Hr. cbn [takeWhile dropWhile]. now rewrite Hr.
  - apply andb_true_iff in Hl as [Hx Hl]. destruct (IH Hl) as [E1 E2].
    cbn [takeWhile dropWhile]. now rewrite Hx, E1, E2.
Qed.

Lemma exponentPart_stop (rest : jsstring) :
  stopsNumber rest = true -> exponentPart rest = 0.
Proof.
  destruct rest as [|c r]; [reflexivity |]. cbn [stopsNumber exponentPart].
  rewrite !andb_true_iff, !negb_true_iff. intros [[_ H1] H2].
  now rewrite H1, H2.
Qed.

(** [parseFloat] on digits, a [.], digits, and then anything that cannot
    continue the number. *)
Lemma parseFloat_decimal (ip fp rest : jsstring) :
  ip <> [] -> forallb isDigit ip = true -> forallb isDigit fp = true ->
  stopsNumber rest = true ->
  parseFloat (ip ++ 46 :: fp ++ rest)
  = ofDecimal (digitsValue (ip ++ fp)) (- Z.of_nat (length fp)).
Proof.
  intros Hne Hip Hfp Hrest.
  assert (Hhead : exists c0 ip', ip = c0 :: ip' /\ 48 <= c0 <= 57).
  { destruct ip as [|c0 ip']; [congruence |]. exists c0, ip'.
    split; [reflexivity |]. cbn [forallb] in Hip.
    apply andb_true_iff in Hip as [Hc0 _]. now apply isDigit_bounds. }
  destruct Hhead as (c0 & ip' & Eip & Hb).
  assert (Hc0 : isDigit c0 = true) by now apply isDigit_bounds.
  assert (Hstop : match rest with [] => true | c :: _ => negb (isDigit c) end = true).
  { destruct rest as [|c r]; [reflexivity |]. cbn [stopsNumber] in Hrest.
    now rewrite !andb_true_iff in Hrest. }
  destruct (takeWhile_app_stop isDigit ip (46 :: fp ++ rest) Hip eq_refl) as [T1 D1].
  destruct (takeWhile_app_stop isDigit fp rest Hfp Hstop) as [T2 D2].
  set (t := ip ++ 46 :: fp ++ rest) in *.
  assert (Et : t = c0 :: ip' ++ 46 :: fp ++ rest) by (unfold t; now rewrite Eip).
  assert (Etrim : trimStart t = t).
  { rewrite Et. unfold trimStart. cbn [dropWhile].
    now rewrite (digit_not_whitespace c0 Hc0). }
  assert (Esign : splitSign t = (false, t)).
  { rewrite Et. cbn [splitSign].
    replace (c0 =? 45) with false by (symmetry; apply Z.eqb_neq; lia).
    replace (c0 =? 43) with false by (symmetry; apply Z.eqb_neq; lia).
    reflexivity. }
  assert (Einf : startsWith (str "Infinity") t = false).
  { rewrite Et. change (str "Infinity") with (73 :: str "nfinity").
    cbn [startsWith].
    replace (73 =? c0) with false by (symmetry; apply Z.eqb_neq; lia).
    reflexivity. }
  unfold parseFloat. rewrite Etrim, Esign, Einf, T1, D1.
  replace (46 =? 46) with true by reflexivity.
  rewrite T2, D2, (exponentPart_stop rest Hrest).
  destruct (ip ++ fp) as [|d ds] eqn:E; [| reflexivity].
  apply app_eq_nil in E as [E _]. congruence.
Qed.

Lemma parse_priceText (whole frac rest : jsstring) :
  whole <> [] -> forallb isDigit whole = true -> forallb isDigit frac = true ->
  stopsNumber rest = true ->
  parseFloat (replace (str "$") [] (priceText whole frac ++ rest))
  = ofDecimal (digitsValue (whole ++ frac)) (- Z.of_nat (length frac)).
Proof.
  intros Hne Hw Hf Hrest. unfold priceText. cbn [app].
  change (str "$") with [36].
  rewrite replace_unfold. cbn [startsWith].
  replace (36 =? 36) with true by reflexivity. cbn [andb app length drop].
  rewrite drop_0, <- app_assoc. cbn [app].
  now apply parseFloat_decimal.
Qed.

(** X5. When the price text of an item has the form [$], digits, [.],
    digits, followed by nothing or by text that cannot continue a number, the
    price of its [Product] is the Number nearest to the decimal value
    written: the digits taken as an integer, scaled down by the number of
    fraction digits.  What follows the number is ignored. *)
Theorem getProducts_reads_decimal (p : page) (i : nat) (it : item)
    (whole frac rest : jsstring) :
  productItems p !! i = Some it ->
  itemPrice it = Some (priceText whole frac ++ rest) ->
  whole <> [] -> forallb isDigit whole = true -> forallb isDigit frac = true ->
  stopsNumber rest = true ->
  exists prod : Product,
    InventoryPage.getProducts p !! i = Some prod
    /\ price prod
       = ofDecimal (digitsValue (whole ++ frac)) (- Z.of_nat (length frac)).
Proof.
  intros Hit Hprice Hne Hw Hf Hrest. exists (productOf it).
  rewrite getProducts_spec, list_lookup_fmap, Hit. split; [reflexivity |].
  unfold productOf. cbn [price]. rewrite Hprice. cbn [orEmpty].
  now apply parse_priceText.
Qed.

Lemma getProducts_reads_decimal_witness :
  let p := pageWithItem (Some (str "$29.99 USD")) in
  str "29" <> []
  /\ forallb isDigit (str "29") = true
  /\ forallb isDigit (str "99") = true
  /\ stopsNumber (str " USD") = true
  /\ exists prod,
       InventoryPage.getProducts p !! 0%nat = Some prod
       /\ price prod = ofDecimal 2999 (-2).
Proof.
  intros p.
  assert (Hne : str "29" <> []) by discriminate.
  split; [exact Hne |]. split; [reflexivity |]. split; [reflexivity |].
  split; [reflexivity |].
  exact (getProducts_reads_decimal p 0%nat _ (str "29") (str "99") (str " USD")
           eq_refl eq_refl Hne eq_refl eq_refl eq_refl).
Defined.

Lemma adjacentPairs_map {A B} (f : A -> B) (R : B -> B -> Prop) (l : list A) :
  adjacentPairs R (map f l) <-> adjacentPairs (fun a b => R (f a) (f b)) l.
Proof.
  unfold adjacentPairs. split.
  - intros H i a b Ha Hb. apply (H i).
    + change (map f l) with (f <$> l). now rewrite list_lookup_fmap, Ha.
    + change (map f l) with (f <$> l). now rewrite list_lookup_fmap, Hb.
  - intros H i x y Hx Hy.
    change (map f l) with (f <$> l) in Hx, Hy.
    rewrite list_lookup_fmap in Hx, Hy.
    destruct (l !! i) as [a|] eqn:Ea; [| discriminate].
    destruct (l !! S i) as [b|] eqn:Eb; [| discriminate].
    injection Hx as <-. injection Hy as <-. now apply (H i).
Qed.

Lemma cents_leb_iff (n m : Z) :
  0 <= n < 10 ^ 15 -> 0 <= m < 10 ^ 15 ->
  leb (ofDecimal n (-2)) (ofDecimal m (-2)) = true <-> n <= m.
Proof.
  intros Hn Hm. split.
  - intros Hle. destruct (Z.le_gt_cases n m) as [H | H]; [assumption |].
    pose proof (cents_strictly_monotone m n ltac:(lia) H ltac:(lia)) as Hlt.
    destruct (cents_rounding n Hn) as (x & Ex & _).
    destruct (cents_rounding m Hm) as (y & Ey & _).
    rewrite Ex, Ey in *. cbn [leb ltb] in *.
    apply Z.leb_le in Hle. apply Z.ltb_lt in Hlt. lia.
  - intros Hle. destruct (Z.eq_dec n m) as [-> | Hne].
    + destruct (cents_rounding m Hm) as (y & -> & _). cbn [leb]. apply Z.leb_refl.
    + pose proof (cents_strictly_monotone n m ltac:(lia) ltac:(lia) ltac:(lia)) as Hlt.
      destruct (cents_rounding n Hn) as (x & Ex & _).
      destruct (cents_rounding m Hm) as (y & Ey & _).
      rewrite Ex, Ey in *. cbn [leb ltb] in *.
      apply Z.leb_le. apply Z.ltb_lt in Hlt. lia.
Qed.

Lemma displayedAmount_range (a : jsstring * jsstring) :
  displayedAmount a -> 0 <= amountOf a < 10 ^ 15.
Proof.
  intros (_ & Hw & Hf & _ & Hlen). unfold amountOf.
  assert (Hds : forallb isDigit (a.1 ++ a.2) = true)
    by (rewrite forallb_app, Hw, Hf; reflexivity).
  pose proof (digitsValue_bounds _ Hds) as [H0 H1].
  split; [assumption |].
  eapply Z.lt_le_trans; [eassumption |]. apply Z.pow_le_mono_r; lia.
Qed.

Lemma displayed_prices (amounts : list (jsstring * jsstring)) :
  Forall displayedAmount amounts ->
  concat (map priceOf (map (fun a => Some (priceText a.1 a.2)) amounts))
  = map (fun a => ofDecimal (amountOf a) (-2)) amounts.
Proof.
  induction 1 as [|a amounts Ha _ IH]; [reflexivity |].
  cbn [map concat]. rewrite IH. unfold priceOf at 1.
  destruct Ha as (Hne & Hw & Hf & Hlen & _).
  replace (truthy (Some (priceText a.1 a.2))) with true by reflexivity.
  cbn [orEmpty app]. f_equal.
  pose proof (parse_priceText a.1 a.2 [] Hne Hw Hf eq_refl) as E.
  rewrite app_nil_r, Hlen in E. exact E.
Qed.

(** X6. On a page whose price texts all read [$], digits, [.], two digits
    (at most 15 digits in all), [getProductPrices] returns one finite Number
    per text, and the price checks decide the order of the amounts as they
    are displayed: the low-to-high check passes exactly when the amounts in
    cents never decrease down the page, the high-to-low check exactly when
    they never increase.  No two different amounts parse to the same
    Number. *)
Theorem price_checks_decide_displayed_order (p : page)
    (amounts : list (jsstring * jsstring)) :
  productPrices p = map (fun a => Some (priceText a.1 a.2)) amounts ->
  Forall displayedAmount amounts ->
  InventoryPage.getProductPrices p
  = map (fun a => ofDecimal (amountOf a) (-2)) amounts
  /\ (InventoryPage.areProductsSortedByPriceLowToHigh p = true
      <-> adjacentPairs (fun a b => amountOf a <= amountOf b) amounts)
  /\ (InventoryPage.areProductsSortedByPriceHighToLow p = true
      <-> adjacentPairs (fun a b => amountOf b <= amountOf a) amounts)
  /\ (forall a b, a ∈ amounts -> b ∈ amounts ->
        ofDecimal (amountOf a) (-2) = ofDecimal (amountOf b) (-2) ->
        amountOf a = amountOf b).
Proof.
  intros Hp Hall.
  assert (E : InventoryPage.getProductPrices p
              = map (fun a => ofDecimal (amountOf a) (-2)) amounts)
    by (rewrite getProductPrices_spec, Hp; now apply displayed_prices).
  assert (Hrange : forall a, a ∈ amounts -> 0 <= amountOf a < 10 ^ 15).
  { intros a Ha. apply displayedAmount_range.
    rewrite Forall_forall in Hall. now apply Hall. }
  assert (Hfin : Forall (fun v => isFinite v = true) (InventoryPage.getProductPrices p)).
  { rewrite E. apply Forall_map, Forall_forall. intros a Ha.
    destruct (cents_rounding (amountOf a) (Hrange a Ha)) as (x & -> & _).
    reflexivity. }
  split; [exact E |]. split; [| split].
  - rewrite (areProductsSortedByPriceLowToHigh_iff p Hfin), E, adjacentPairs_map.
    split; apply adjacentPairs_impl; intros a b Ha Hb;
      apply cents_leb_iff; auto.
  - rewrite (areProductsSortedByPriceHighToLow_iff p Hfin), E, adjacentPairs_map.
    unfold geb.
    split; apply adjacentPairs_impl; intros a b Ha Hb;
      apply cents_leb_iff; auto.
  - intros a b Ha Hb Heq.
    pose proof (proj1 (cents_leb_iff _ _ (Hrange a Ha) (Hrange b Hb))) as H1.
    pose proof (proj1 (cents_leb_iff _ _ (Hrange b Hb) (Hrange a Ha))) as H2.
    rewrite Heq in H1. rewrite <- Heq in H2.
    destruct (cents_rounding (amountOf a) (Hrange a Ha)) as (x & Ex & _).
    rewrite <- Heq in H1. rewrite Ex in H1, H2. cbn [leb] in H1, H2.
    specialize (H1 (Z.leb_refl x)). specialize (H2 (Z.leb_refl x)). lia.
Qed.

Lemma price_checks_decide_displayed_order_witness :
  let amounts := [(str "7", str "99"); (str "15", str "99"); (str "9", str "99")] in
  let p := pageOf [] ["$7.99"; "$15.99"; "$9.99"]%string in
  productPrices p = map (fun a => Some (priceText a.1 a.2)) amounts
  /\ Forall displayedAmount amounts
  /\ map amountOf amounts = [799; 1599; 999]
  /\ InventoryPage.areProductsSortedByPriceLowToHigh p = false
  /\ InventoryPage.areProductsSortedByPriceHighToLow p = false.
Proof.
  intros amounts p.
  assert (Hp : productPrices p = map (fun a => Some (priceText a.1 a.2)) amounts)
    by reflexivity.
  assert (Hall : Forall displayedAmount amounts).
  { repeat constructor; try discriminate; cbn; lia. }
  destruct (price_checks_decide_displayed_order p amounts Hp Hall)
    as (_ & HLH & HHL & _).
  split; [exact Hp |]. split; [exact Hall |]. split; [reflexivity |].
  split.
  - apply not_true_is_false. intros H. apply HLH in H.
    specialize (H 1%nat _ _ eq_refl eq_refl). vm_compute in H. now apply H.
  - apply not_true_is_false. intros H. apply HHL in H.
    specialize (H 0%nat _ _ eq_refl eq_refl). vm_compute in H. now apply H.
Defined.

(* ===================================================================== *)
(** * The two directions together, and the page turned round *)
(* ===================================================================== *)

Lemma adjacentPairs_and {A} (R S : A -> A -> Prop) (l : list A) :
  adjacentPairs (fun a b => R a b /\ S a b) l
  <-> adjacentPairs R l /\ adjacentPairs S l.
Proof.
  unfold adjacentPairs. split.
  - intros H. split; intros i a b Ha Hb; now destruct (H i a b Ha Hb).
  - intros [HR HS] i a b Ha Hb. split; [now apply (HR i) | now apply (HS i)].
Qed.

Lemma adjacentPairs_snoc {A} (R : A -> A -> Prop) (l : list A) (x : A) :
  adjacentPairs R (l ++ [x])
  <-> adjacentPairs R l /\ (forall y, last l = Some y -> R y x).
Proof.
  induction l as [|y l IH].
  - cbn [app]. split.
    + intros _. split; [apply adjacentPairs_nil | discriminate].
    + intros _. apply adjacentPairs_one.
  - destruct l as [|z l].
    + cbn [app]. rewrite adjacentPairs_cons. split.
      * intros [H _]. split; [apply adjacentPairs_one |].
        intros y' Hy'. cbn in Hy'. now injection Hy' as <-.
      * intros [_ H]. split; [now apply H | apply adjacentPairs_one].
    + change ((y :: z :: l) ++ [x]) with (y :: z :: (l ++ [x])).
      rewrite !adjacentPairs_cons.
      change (z :: l ++ [x]) with ((z :: l) ++ [x]). rewrite IH.
      change (last (y :: z :: l)) with (last (z :: l)). tauto.
Qed.

Lemma last_rev {A} (l : list A) : last (rev l) = head l.
Proof.
  destruct l as [|x l]; [reflexivity |]. cbn [rev head].
  apply last_snoc.
Qed.

Lemma adjacentPairs_rev {A} (R : A -> A -> Prop) (l : list A) :
  adjacentPairs R (rev l) <-> adjacentPairs (fun a b => R b a) l.
Proof.
  induction l as [|x l IH].
  - split; intros _; apply adjacentPairs_nil.
  - cbn [rev]. rewrite adjacentPairs_snoc, IH, last_rev.
    destruct l as [|y l].
    + split; [intros _; apply adjacentPairs_one |].
      intros _. split; [apply adjacentPairs_nil | discriminate].
    + rewrite adjacentPairs_cons. cbn [head]. split.
      * intros [H1 H2]. split; [now apply H2 | assumption].
      * intros [H1 H2]. split; [assumption |]. now intros y' [= <-].
Qed.

Lemma concat_nameOf_rev (texts : list (option jsstring)) :
  concat (map nameOf (rev texts)) = rev (concat (map nameOf texts)).
Proof.
  induction texts as [|t texts IH]; [reflexivity |].
  cbn [rev map concat]. rewrite map_app, concat_app, IH, rev_app_distr.
  cbn [map concat]. rewrite app_nil_r. f_equal.
  unfold nameOf. now destruct (truthy t).
Qed.

Lemma concat_priceOf_rev (texts : list (option jsstring)) :
  concat (map priceOf (rev texts)) = rev (concat (map priceOf texts)).
Proof.
  induction texts as [|t texts IH]; [reflexivity |].
  cbn [rev map concat]. rewrite map_app, concat_app, IH, rev_app_distr.
  cbn [map concat]. rewrite app_nil_r. f_equal.
  unfold priceOf. now destruct (truthy t).
Qed.

Lemma leb_antisym_finite (a b : number) :
  isFinite a = true -> isFinite b = true ->
  leb a b = true -> leb b a = true -> a = b.
Proof.
  destruct a as [| | |x], b as [| | |y]; cbn [isFinite leb]; try discriminate.
  intros _ _ H1 H2. apply Z.leb_le in H1, H2. f_equal. lia.
Qed.

Section Directions.
Variable localeCompare : jsstring -> jsstring -> number.
Hypothesis localeCompare_antisym :
  forall a b, sortSign (localeCompare b a) = - sortSign (localeCompare a b).

(** X7. The A-Z and the Z-A check both pass exactly when every two adjacent
    names tie under [localeCompare]; the two price checks both pass, on
    finite prices, exactly when all adjacent prices are equal.  So a page
    that passes both directions shows no order at all. *)
Theorem both_directions_iff_tied (p : page) :
  (InventoryPage.areProductsSortedAZ localeCompare p = true
   /\ InventoryPage.areProductsSortedZA localeCompare p = true
   <-> adjacentPairs (fun a b => sortSign (localeCompare a b) = 0)
         (InventoryPage.getProductNames p))
  /\ (Forall (fun v => isFinite v = true) (InventoryPage.getProductPrices p) ->
      (InventoryPage.areProductsSortedByPriceLowToHigh p = true
       /\ InventoryPage.areProductsSortedByPriceHighToLow p = true
       <-> adjacentPairs (fun a b => a = b) (InventoryPage.getProductPrices p))).
Proof.
  split.
  - rewrite (areProductsSortedAZ_iff localeCompare localeCompare_antisym),
      (areProductsSortedZA_iff localeCompare localeCompare_antisym),
      <- adjacentPairs_and.
    split; apply adjacentPairs_impl; intros a b _ _; lia.
  - intros Hfin.
    rewrite (areProductsSortedByPriceLowToHigh_iff p Hfin),
      (areProductsSortedByPriceHighToLow_iff p Hfin), <- adjacentPairs_and.
    rewrite Forall_forall in Hfin. unfold geb.
    split; apply adjacentPairs_impl; intros a b Ha Hb.
    + intros [H1 H2]. apply leb_antisym_finite; auto.
    + intros <-. split; apply leb_refl_number;
        (destruct a; [discriminate (Hfin _ Ha) | reflexivity ..]).
Qed.

(** X8. Listing the products in the opposite order swaps the verdicts: the
    A-Z check on the reversed page is the Z-A check on the page, and the
    other way round; on finite prices the low-to-high check on the reversed
    page is the high-to-low check on the page, and the other way round. *)
Theorem reversed_page_swaps_verdicts (p : page) :
  InventoryPage.getProductNames (reversed p) = rev (InventoryPage.getProductNames p)
  /\ InventoryPage.getProductPrices (reversed p)
     = rev (InventoryPage.getProductPrices p)
  /\ InventoryPage.areProductsSortedAZ localeCompare (reversed p)
     = InventoryPage.areProductsSortedZA localeCompare p
  /\ InventoryPage.areProductsSortedZA localeCompare (reversed p)
     = InventoryPage.areProductsSortedAZ localeCompare p
  /\ (Forall (fun v => isFinite v = true) (InventoryPage.getProductPrices p) ->
      InventoryPage.areProductsSortedByPriceLowToHigh (reversed p)
      = InventoryPage.areProductsSortedByPriceHighToLow p
      /\ InventoryPage.areProductsSortedByPriceHighToLow (reversed p)
         = InventoryPage.areProductsSortedByPriceLowToHigh p).
Proof.
  assert (En : InventoryPage.getProductNames (reversed p)
               = rev (InventoryPage.getProductNames p))
    by (rewrite !getProductNames_spec; apply concat_nameOf_rev).
  assert (Ep : InventoryPage.getProductPrices (reversed p)
               = rev (InventoryPage.getProductPrices p))
    by (rewrite !getProductPrices_spec; apply concat_priceOf_rev).
  split; [exact En |]. split; [exact Ep |].
  split; [| split].
  - apply eq_true_iff_eq.
    rewrite (areProductsSortedAZ_iff localeCompare localeCompare_antisym),
      (areProductsSortedZA_iff localeCompare localeCompare_antisym),
      En, adjacentPairs_rev.
    split; apply adjacentPairs_impl; intros a b _ _;
      rewrite (localeCompare_antisym a b); lia.
  - apply eq_true_iff_eq.
    rewrite (areProductsSortedAZ_iff localeCompare localeCompare_antisym),
      (areProductsSortedZA_iff localeCompare localeCompare_antisym),
      En, adjacentPairs_rev.
    split; apply adjacentPairs_impl; intros a b _ _;
      rewrite (localeCompare_antisym a b); lia.
  - intros Hfin.
    assert (Hfin' : Forall (fun v => isFinite v = true)
                           (InventoryPage.getProductPrices (reversed p))).
    { rewrite Ep. apply Forall_forall. intros v Hv.
      rewrite Forall_forall in Hfin. apply Hfin.
      apply list_elem_of_In. apply in_rev. now apply list_elem_of_In. }
    split; apply eq_true_iff_eq.
    + rewrite (areProductsSortedByPriceLowToHigh_iff _ Hfin'),
        (areProductsSortedByPriceHighToLow_iff _ Hfin), Ep, adjacentPairs_rev.
      reflexivity.
    + rewrite (areProductsSortedByPriceHighToLow_iff _ Hfin'),
        (areProductsSortedByPriceLowToHigh_iff _ Hfin), Ep, adjacentPairs_rev.
      reflexivity.
Qed.

End Directions.

Lemma both_directions_iff_tied_witness :
  let p := pageOf ["Onesie"; "Onesie"]%string ["$7.99"; "$7.99"]%string in
  (forall a b, sortSign (codeUnitCompare b a) = - sortSign (codeUnitCompare a b))
  /\ Forall (fun v => isFinite v = true) (InventoryPage.getProductPrices p)
  /\ adjacentPairs (fun a b => sortSign (codeUnitCompare a b) = 0)
       (InventoryPage.getProductNames p)
  /\ adjacentPairs (fun a b => a = b) (InventoryPage.getProductPrices p).
Proof.
  intros p.
  assert (Hfin : Forall (fun v => isFinite v = true) (InventoryPage.getProductPrices p))
    by (vm_compute; repeat constructor).
  destruct (both_directions_iff_tied codeUnitCompare codeUnitCompare_antisym p)
    as [Hnames Hprices].
  split; [exact codeUnitCompare_antisym |]. split; [exact Hfin |]. split.
  - apply Hnames. split; vm_compute; reflexivity.
  - apply (Hprices Hfin). split; vm_compute; reflexivity.
Defined.

Lemma reversed_page_swaps_verdicts_witness :
  let p := pageOf ["Apple"; "Mango"; "Zebra"]%string
                  ["$7.99"; "$9.99"; "$15.99"]%string in
  (forall a b, sortSign (codeUnitCompare b a) = - sortSign (codeUnitCompare a b))
  /\ Forall (fun v => isFinite v = true) (InventoryPage.getProductPrices p)
  /\ InventoryPage.getProductNames (reversed p)
     = [str "Zebra"; str "Mango"; str "Apple"]
  /\ InventoryPage.areProductsSortedZA codeUnitCompare (reversed p) = true
  /\ InventoryPage.areProductsSortedByPriceHighToLow (reversed p) = true.
Proof.
  intros p.
  assert (Hfin : Forall (fun v => isFinite v = true) (InventoryPage.getProductPrices p))
    by (vm_compute; repeat constructor).
  destruct (reversed_page_swaps_verdicts codeUnitCompare codeUnitCompare_antisym p)
    as (En & _ & _ & HZA & Hprices).
  destruct (Hprices Hfin) as [_ HHL].
  split; [exact codeUnitCompare_antisym |]. split; [exact Hfin |].
  split; [rewrite En; reflexivity |].
  split; [rewrite HZA | rewrite HHL]; vm_compute; reflexivity.
Defined.

(* ===================================================================== *)
(** * The sorting scenarios *)
(* ===================================================================== *)

Lemma toBe_heads (received expected : list jsstring) :
  received = expected -> SortingSpec.toBe (head received) (head expected) = true.
Proof.
  intros ->. destruct expected as [|e expected]; [reflexivity |].
  cbn. now apply streq_eq.
Qed.

Section NameScenarios.
Variable localeCompare : jsstring -> jsstring -> number.
Hypothesis localeCompare_antisym :
  forall a b, sortSign (localeCompare b a) = - sortSign (localeCompare a b).

(** X9. TC_01 passes exactly when the page shows the expected names, one by
    one, and the expected list is itself in Z-A order; TC_03 likewise with
    A-Z order.  The comparison with the expected order therefore decides the
    scenario, the check of the first name adds nothing to it, and with a
    list of expected names that is out of order the scenario fails on every
    page. *)
Theorem name_scenarios_pass_iff (p : page) (expected : list jsstring) :
  (SortingSpec.TC_01 localeCompare p expected = true
   <-> InventoryPage.getProductNames p = expected
       /\ adjacentPairs (fun a b => 0 <= sortSign (localeCompare a b)) expected)
  /\ (SortingSpec.TC_03 localeCompare p expected = true
      <-> InventoryPage.getProductNames p = expected
          /\ adjacentPairs (fun a b => sortSign (localeCompare a b) <= 0) expected).
Proof.
  unfold SortingSpec.TC_01, SortingSpec.TC_03.
  rewrite !andb_true_iff, !toEqual_eq,
    (areProductsSortedZA_iff localeCompare localeCompare_antisym),
    (areProductsSortedAZ_iff localeCompare localeCompare_antisym).
  split; split.
  - intros [[Hord E] _]. rewrite <- E. tauto.
  - intros [E Hord]. rewrite E. repeat split; try assumption.
    now apply toBe_heads.
  - intros [Hord E]. rewrite <- E. tauto.
  - intros [E Hord]. rewrite E. tauto.
Qed.

End NameScenarios.

Lemma name_scenarios_pass_iff_witness :
  let p := pageOf ["Zebra"; "Mango"; "Apple"]%string [] in
  let za := [str "Zebra"; str "Mango"; str "Apple"] in
  let mixed := [str "Zebra"; str "Apple"; str "Mango"] in
  (forall a b, sortSign (codeUnitCompare b a) = - sortSign (codeUnitCompare a b))
  /\ SortingSpec.TC_01 codeUnitCompare p za = true
  /\ SortingSpec.TC_01 codeUnitCompare
       (pageOf ["Zebra"; "Apple"; "Mango"]%string []) mixed = false.
Proof.
  intros p za mixed.
  destruct (name_scenarios_pass_iff codeUnitCompare codeUnitCompare_antisym p za)
    as [H01 _].
  split; [exact codeUnitCompare_antisym |]. split.
  - apply H01. split; [reflexivity |].
    apply (areProductsSortedZA_iff codeUnitCompare codeUnitCompare_antisym p).
    vm_compute. reflexivity.
  - vm_compute. reflexivity.
Defined.

(** ** Strictly greater, strictly less *)

Section Chains.
Variable R : Z -> Z -> Prop.
Hypothesis R_refl : forall x, R x x.
Hypothesis R_trans : forall x y z, R x y -> R y z -> R x z.
Hypothesis R_antisym : forall x y, R x y -> R y x -> x = y.

Lemma chain_head_last (zs : list Z) (a b : Z) :
  adjacentPairs R zs -> head zs = Some a -> last zs = Some b -> R a b.
Proof.
  revert a; induction zs as [|z zs IH]; intros a Hord Ha Hb; [discriminate |].
  cbn in Ha. injection Ha as ->.
  destruct zs as [|y zs].
  - cbn in Hb. injection Hb as ->. apply R_refl.
  - apply adjacentPairs_cons in Hord as [Hay Hord].
    eapply R_trans; [exact Hay |]. now apply IH.
Qed.

Lemma chain_squeezed (zs : list Z) (a : Z) :
  adjacentPairs R zs -> head zs = Some a -> last zs = Some a ->
  adjacentPairs (fun x y => x = y) zs.
Proof.
  revert a; induction zs as [|z zs IH]; intros a Hord Ha Hb;
    [apply adjacentPairs_nil |].
  cbn in Ha. injection Ha as ->.
  destruct zs as [|y zs]; [apply adjacentPairs_one |].
  apply adjacentPairs_cons in Hord as [Hay Hord].
  assert (Hya : R y a) by (eapply chain_head_last; [exact Hord | reflexivity | exact Hb]).
  assert (E : a = y) by now apply R_antisym.
  subst y. apply adjacentPairs_cons. split; [reflexivity |].
  now apply (IH a).
Qed.
End Chains.

Lemma all_equal_head_last {A} (l : list A) (a b : A) :
  adjacentPairs (fun x y => x = y) l -> head l = Some a -> last l = Some b -> a = b.
Proof.
  revert a; induction l as [|z l IH]; intros a Hord Ha Hb; [discriminate |].
  cbn in Ha. injection Ha as ->.
  destruct l as [|y l]; [cbn in Hb; congruence |].
  apply adjacentPairs_cons in Hord as [-> Hord]. now apply IH.
Qed.

Lemma finite_numbers (l : list number) :
  Forall (fun v => isFinite v = true) l -> exists zs, l = map Fin zs.
Proof.
  induction 1 as [|v l Hv _ [zs ->]]; [now exists [] |].
  destruct v as [| | |z]; try discriminate. now exists (z :: zs).
Qed.

Lemma gtb_irrefl (v : number) : gtb v v = false.
Proof. destruct v; cbn; try reflexivity. apply Z.ltb_irrefl. Qed.

Lemma head_last_short {A} (l : list A) (a b : A) :
  (length l <= 1)%nat -> head l = Some a -> last l = Some b -> a = b.
Proof.
  destruct l as [|x [|y l]]; cbn; intros H Ha Hb; try discriminate; try lia.
  congruence.
Qed.

(** First above last, for a list the high-to-low check accepts. *)
Lemma first_above_last (prices : list number) :
  Forall (fun v => isFinite v = true) prices ->
  adjacentPairs (fun a b => geb a b = true) prices ->
  (SortingSpec.toBeGreaterThan (head prices) (last prices) = true
   <-> ~ adjacentPairs (fun a b => a = b) prices).
Proof.
  intros Hfin Hord. destruct (finite_numbers prices Hfin) as [zs ->].
  apply adjacentPairs_map in Hord.
  assert (Hord' : adjacentPairs (fun a b => b <= a) zs).
  { revert Hord. apply adjacentPairs_impl. intros a b _ _ H.
    unfold geb in H. cbn [leb] in H. now apply Z.leb_le. }
  rewrite adjacentPairs_map.
  change (map Fin zs) with (Fin <$> zs).
  rewrite fmap_last, head_lookup, list_lookup_fmap, <- head_lookup.
  destruct (head zs) as [a|] eqn:Ea, (last zs) as [b|] eqn:Eb; cbn.
  - pose proof (chain_head_last (fun x y => y <= x) ltac:(cbn; intros; lia)
                  ltac:(cbn; intros; lia) zs a b Hord' Ea Eb) as Hba.
    cbn in Hba. rewrite Z.ltb_lt. split.
    + intros Hlt Heq.
      assert (Heq' : adjacentPairs (fun x y => x = y) zs).
      { revert Heq. apply adjacentPairs_impl. intros x y _ _ H. congruence. }
      pose proof (all_equal_head_last zs a b Heq' Ea Eb). lia.
    + intros Hne. destruct (Z.eq_dec a b) as [<- | Hab]; [| lia].
      exfalso. apply Hne.
      pose proof (chain_squeezed (fun x y => y <= x) ltac:(cbn; intros; lia)
                    ltac:(cbn; intros; lia) ltac:(cbn; intros; lia) zs a Hord' Ea Eb) as Hsq.
      revert Hsq. apply adjacentPairs_impl. intros x y _ _ H. congruence.
  - apply last_None in Eb. subst zs. discriminate.
  - apply head_None in Ea. subst zs. discriminate.
  - split; [discriminate |]. intros H. exfalso. apply H.
    apply head_None in Ea. subst zs. apply adjacentPairs_nil.
Qed.

Lemma ltb_irrefl (v : number) : ltb v v = false.
Proof. destruct v; cbn; try reflexivity. apply Z.ltb_irrefl. Qed.

(** First below last, for a list the low-to-high check accepts. *)
Lemma first_below_last (prices : list number) :
  Forall (fun v => isFinite v = true) prices ->
  adjacentPairs (fun a b => leb a b = true) prices ->
  (SortingSpec.toBeLessThan (head prices) (last prices) = true
   <-> ~ adjacentPairs (fun a b => a = b) prices).
Proof.
  intros Hfin Hord. destruct (finite_numbers prices Hfin) as [zs ->].
  apply adjacentPairs_map in Hord.
  assert (Hord' : adjacentPairs (fun a b => a <= b) zs).
  { revert Hord. apply adjacentPairs_impl. intros a b _ _ H.
    cbn [leb] in H. now apply Z.leb_le. }
  rewrite adjacentPairs_map.
  change (map Fin zs) with (Fin <$> zs).
  rewrite fmap_last, head_lookup, list_lookup_fmap, <- head_lookup.
  destruct (head zs) as [a|] eqn:Ea, (last zs) as [b|] eqn:Eb; cbn.
  - pose proof (chain_head_last (fun x y => x <= y) ltac:(cbn; intros; lia)
                  ltac:(cbn; intros; lia) zs a b Hord' Ea Eb) as Hab.
    cbn in Hab. rewrite Z.ltb_lt. split.
    + intros Hlt Heq.
      assert (Heq' : adjacentPairs (fun x y => x = y) zs).
      { revert Heq. apply adjacentPairs_impl. intros x y _ _ H. congruence. }
      pose proof (all_equal_head_last zs a b Heq' Ea Eb). lia.
    + intros Hne. destruct (Z.eq_dec a b) as [<- | Hne']; [| lia].
      exfalso. apply Hne.
      pose proof (chain_squeezed (fun x y => x <= y) ltac:(cbn; intros; lia)
                    ltac:(cbn; intros; lia) ltac:(cbn; intros; lia) zs a Hord' Ea Eb)
        as Hsq.
      revert Hsq. apply adjacentPairs_impl. intros x y _ _ H. congruence.
  - apply last_None in Eb. subst zs. discriminate.
  - apply head_None in Ea. subst zs. discriminate.
  - split; [discriminate |]. intros H. exfalso. apply H.
    apply head_None in Ea. subst zs. apply adjacentPairs_nil.
Qed.

Lemma strict_fails_when_short (prices : list number) :
  (length prices <= 1)%nat ->
  SortingSpec.toBeGreaterThan (head prices) (last prices) = false
  /\ SortingSpec.toBeLessThan (head prices) (last prices) = false.
Proof.
  destruct prices as [|x [|y l]]; cbn [length]; intros H; try lia.
  - split; reflexivity.
  - cbn. split; [apply gtb_irrefl | apply ltb_irrefl].
Qed.

(** X10. On finite prices TC_02 passes exactly when the high-to-low check
    passes, the prices are not all equal and the names are the expected ones;
    TC_04 likewise with the low-to-high check.  A page with at most one
    price fails both scenarios whatever it shows, and so does a page whose
    prices are all equal, although the sort-order checks pass on it. *)
Theorem price_scenarios_need_strict_order (p : page) (expected : list jsstring) :
  Forall (fun v => isFinite v = true) (InventoryPage.getProductPrices p) ->
  (SortingSpec.TC_02 p expected = true
   <-> InventoryPage.areProductsSortedByPriceHighToLow p = true
       /\ ~ adjacentPairs (fun a b => a = b) (InventoryPage.getProductPrices p)
       /\ InventoryPage.getProductNames p = expected)
  /\ (SortingSpec.TC_04 p expected = true
      <-> InventoryPage.areProductsSortedByPriceLowToHigh p = true
          /\ ~ adjacentPairs (fun a b => a = b) (InventoryPage.getProductPrices p)
          /\ InventoryPage.getProductNames p = expected)
  /\ ((length (InventoryPage.getProductPrices p) <= 1)%nat ->
      SortingSpec.TC_02 p expected = false /\ SortingSpec.TC_04 p expected = false)
  /\ (adjacentPairs (fun a b => a = b) (InventoryPage.getProductPrices p) ->
      SortingSpec.TC_02 p expected = false /\ SortingSpec.TC_04 p expected = false).
Proof.
  intros Hfin.
  assert (H02 : SortingSpec.TC_02 p expected = true
                <-> InventoryPage.areProductsSortedByPriceHighToLow p = true
                    /\ ~ adjacentPairs (fun a b => a = b) (InventoryPage.getProductPrices p)
                    /\ InventoryPage.getProductNames p = expected).
  { unfold SortingSpec.TC_02. rewrite !andb_true_iff, toEqual_eq. split.
    - intros [[[Hs Hgt] E] _]. split; [assumption |]. split; [| assumption].
      apply (first_above_last _ Hfin); [| assumption].
      now apply (areProductsSortedByPriceHighToLow_iff p Hfin).
    - intros (Hs & Hne & E). repeat split; try assumption.
      + apply (first_above_last _ Hfin); [| assumption].
        now apply (areProductsSortedByPriceHighToLow_iff p Hfin).
      + now apply toBe_heads. }
  assert (H04 : SortingSpec.TC_04 p expected = true
                <-> InventoryPage.areProductsSortedByPriceLowToHigh p = true
                    /\ ~ adjacentPairs (fun a b => a = b) (InventoryPage.getProductPrices p)
                    /\ InventoryPage.getProductNames p = expected).
  { unfold SortingSpec.TC_04. rewrite !andb_true_iff, toEqual_eq. split.
    - intros [[Hs Hlt] E]. split; [assumption |]. split; [| assumption].
      apply (first_below_last _ Hfin); [| assumption].
      now apply (areProductsSortedByPriceLowToHigh_iff p Hfin).
    - intros (Hs & Hne & E). repeat split; try assumption.
      apply (first_below_last _ Hfin); [| assumption].
      now apply (areProductsSortedByPriceLowToHigh_iff p Hfin). }
  split; [exact H02 |]. split; [exact H04 |].
  assert (Hties : adjacentPairs (fun a b => a = b) (InventoryPage.getProductPrices p) ->
                  SortingSpec.TC_02 p expected = false
                  /\ SortingSpec.TC_04 p expected = false).
  { intros Heq. split; apply not_true_is_false; intros H;
      [apply H02 in H | apply H04 in H]; tauto. }
  split; [| exact Hties].
  intros Hlen. apply Hties. now apply adjacentPairs_short.
Qed.

Lemma price_scenarios_need_strict_order_witness :
  let one := pageOf ["Sauce Labs Onesie"]%string ["$7.99"]%string in
  let two := pageOf ["Sauce Labs Fleece Jacket"; "Sauce Labs Onesie"]%string
                    ["$49.99"; "$7.99"]%string in
  Forall (fun v => isFinite v = true) (InventoryPage.getProductPrices one)
  /\ Forall (fun v => isFinite v = true) (InventoryPage.getProductPrices two)
  /\ InventoryPage.areProductsSortedByPriceHighToLow one = true
  /\ SortingSpec.TC_02 one [str "Sauce Labs Onesie"] = false
  /\ SortingSpec.TC_02 two [str "Sauce Labs Fleece Jacket"; str "Sauce Labs Onesie"]
     = true.
Proof.
  intros one two.
  assert (H1 : Forall (fun v => isFinite v = true) (InventoryPage.getProductPrices one))
    by (vm_compute; repeat constructor).
  assert (H2 : Forall (fun v => isFinite v = true) (InventoryPage.getProductPrices two))
    by (vm_compute; repeat constructor).
  destruct (price_scenarios_need_strict_order one [str "Sauce Labs Onesie"] H1)
    as (_ & _ & Hshort & _).
  destruct (price_scenarios_need_strict_order two
              [str "Sauce Labs Fleece Jacket"; str "Sauce Labs Onesie"] H2)
    as (H02 & _).
  split; [exact H1 |]. split; [exact H2 |].
  split; [vm_compute; reflexivity |].
  split; [apply Hshort; vm_compute; lia |].
  apply H02. split; [vm_compute; reflexivity |]. split; [| reflexivity].
  intros Heq. specialize (Heq 0%nat _ _ eq_refl eq_refl). vm_compute in Heq.
  discriminate Heq.
Defined.

(* ===================================================================== *)
(** * Regular expressions *)
(* ===================================================================== *)

Lemma matches_fail (s : jsstring) : matches RFail s = false.
Proof. induction s; [reflexivity | assumption]. Qed.

Lemma matches_alt (r1 r2 : regex) (s : jsstring) :
  matches (RAlt r1 r2) s = matches r1 s || matches r2 s.
Proof.
  revert r1 r2; induction s as [|c s IH]; intros r1 r2; [reflexivity |].
  cbn [matches deriv]. apply IH.
Qed.

Lemma matches_seq_nullable (r1 r2 : regex) (s : jsstring) :
  nullable r1 = true -> matches r2 s = true -> matches (RSeq r1 r2) s = true.
Proof.
  intros H1 H2. destruct s as [|c s].
  - cbn [matches nullable] in *. now rewrite H1, H2.
  - cbn [matches deriv] in *. rewrite H1, matches_alt, H2. apply orb_true_r.
Qed.

(** A text made of a part [r1] matches and a part [r2] matches is matched by
    their concatenation. *)
Lemma matches_seq (r1 r2 : regex) (s1 s2 : jsstring) :
  matches r1 s1 = true -> matches r2 s2 = true ->
  matches (RSeq r1 r2) (s1 ++ s2) = true.
Proof.
  revert r1; induction s1 as [|c s1 IH]; intros r1 H1 H2.
  - now apply matches_seq_nullable.
  - cbn [app matches deriv] in *.
    destruct (nullable r1); [rewrite matches_alt |]; rewrite IH by assumption;
      reflexivity.
Qed.

Lemma matches_anything (s : jsstring) :
  matches (RStar (RClass (fun _ => true))) s = true.
Proof.
  induction s as [|c s IH]; [reflexivity |].
  cbn [matches deriv]. now apply (matches_seq_nullable REps).
Qed.

Lemma matches_star_nil (r : regex) : matches (RStar r) [] = true.
Proof. reflexivity. Qed.

Lemma matches_class (p : char -> bool) (c : char) :
  p c = true -> matches (RClass p) [c] = true.
Proof. intros H. cbn. now rewrite H. Qed.

Lemma matches_lit (s : jsstring) : matches (RLit s) s = true.
Proof.
  induction s as [|c s IH]; [reflexivity |].
  cbn [RLit]. apply (matches_seq _ _ [c] s); [| assumption].
  apply matches_class, Z.eqb_refl.
Qed.

(** A pattern without anchors is found wherever a matching part stands. *)
Lemma regexTest_found (r : regex) (pre mid post : jsstring) :
  matches r mid = true -> regexTest r (pre ++ mid ++ post) = true.
Proof.
  intros H. unfold regexTest.
  apply matches_seq; [apply matches_anything |].
  apply matches_seq; [assumption | apply matches_anything].
Qed.

(* ===================================================================== *)
(** * LoginPage: the two tests of a successful login *)
(* ===================================================================== *)

Lemma inventoryUrlPattern_matches_path :
  matches LoginPage.inventoryUrlPattern (str "inventory.html") = true.
Proof. reflexivity. Qed.

(** X11. Every URL that [isLoginSuccessful] accepts, [expectLoginSuccess]
    accepts too: a URL in which [/inventory.html] occurs matches
    [/.*inventory.html/].  The expectation is the weaker test: it asks for no
    [/] in front and takes any character for the [.], so it also accepts
    URLs that [isLoginSuccessful] rejects. *)
Theorem login_success_tests (currentUrl : jsstring) :
  (LoginPage.isLoginSuccessful currentUrl = true ->
   LoginPage.expectLoginSuccess currentUrl = true)
  /\ (forall pre post : jsstring,
        LoginPage.expectLoginSuccess (pre ++ str "inventory.html" ++ post) = true)
  /\ (forall (pre post : jsstring) (c : char),
        isLineTerminator c = false ->
        LoginPage.expectLoginSuccess
          (pre ++ (str "inventory" ++ c :: str "html") ++ post) = true)
  /\ LoginPage.isLoginSuccessful (str "https://shop.test/my-inventory.html") = false
  /\ LoginPage.isLoginSuccessful (str "https://shop.test/inventory_html") = false.
Proof.
  assert (Hdot : forall c, isLineTerminator c = false ->
                           matches LoginPage.inventoryUrlPattern
                             (str "inventory" ++ c :: str "html") = true).
  { intros c Hc. unfold LoginPage.inventoryUrlPattern.
    apply (matches_seq _ _ [] (str "inventory" ++ c :: str "html"));
      [reflexivity |].
    apply (matches_seq _ _ (str "inventory") (c :: str "html"));
      [apply matches_lit |].
    apply (matches_seq _ _ [c] (str "html")); [| apply matches_lit].
    apply matches_class. now rewrite Hc. }
  split; [| split; [| split; [| split]]].
  - unfold LoginPage.isLoginSuccessful, LoginPage.expectLoginSuccess.
    intros H. apply includes_iff in H as (pre & post & ->).
    change (str "/inventory.html") with ([47] ++ str "inventory.html").
    rewrite <- app_assoc, app_assoc.
    apply regexTest_found, inventoryUrlPattern_matches_path.
  - intros pre post. apply regexTest_found, inventoryUrlPattern_matches_path.
  - intros pre post c Hc. now apply regexTest_found, Hdot.
  - reflexivity.
  - reflexivity.
Qed.

Lemma login_success_tests_witness :
  let url := str "https://www.saucedemo.com/inventory.html" in
  LoginPage.isLoginSuccessful url = true
  /\ LoginPage.expectLoginSuccess url = true
  /\ isLineTerminator 95 = false
  /\ LoginPage.expectLoginSuccess (str "https://shop.test/inventory_html") = true.
Proof.
  intros url.
  assert (H : LoginPage.isLoginSuccessful url = true) by reflexivity.
  destruct (login_success_tests url) as (Himp & _ & Hdot & _).
  split; [exact H |]. split; [exact (Himp H) |]. split; [reflexivity |].
  exact (Hdot (str "https://shop.test/") [] 95 eq_refl).
Defined.

(* ===================================================================== *)
(** * CartPage *)
(* ===================================================================== *)

Lemma getCartItems_loop_spec (rows : list cartRow) (items : list CartItem) :
  CartPage.getCartItems_loop rows items
  = items
    ++ map (fun row =>
              {| cartItemName := orEmpty (rowName row);
                 cartItemDescription := orEmpty (rowDesc row);
                 cartItemPrice :=
                   parseFloat (replace (str "$") [] (orEmpty (rowPrice row)));
                 quantity := ofZ 1 |}) rows.
Proof.
  revert items; induction rows as [|row rows IH]; intros items; cbn [map].
  - now rewrite app_nil_r.
  - cbn [CartPage.getCartItems_loop]. rewrite IH. unfold push.
    now rewrite <- app_assoc.
Qed.

(** X12. The cart page counts rows, not the badge: [getCartItemCount] is the
    number of items [getCartItems] returns, as a Number that is never
    negative and never [NaN], and exactly that integer for any count below
    [2^53]; [getCartItems] returns one item per row, each with quantity
    [1]. *)
Theorem cart_count_is_number_of_items (c : cart) :
  length (CartPage.getCartItems c) = length (cartItems c)
  /\ Forall (fun it => quantity it = one) (CartPage.getCartItems c)
  /\ CartPage.getCartItemCount c
     = ofZ (Z.of_nat (length (CartPage.getCartItems c)))
  /\ leb (Fin 0) (CartPage.getCartItemCount c) = true
  /\ (Z.of_nat (length (cartItems c)) < 2 ^ 53 ->
      CartPage.getCartItemCount c
      = Fin (Z.of_nat (length (CartPage.getCartItems c)) * 2 ^ unit_exp)).
Proof.
  assert (E : CartPage.getCartItems c
              = map (fun row =>
                       {| cartItemName := orEmpty (rowName row);
                          cartItemDescription := orEmpty (rowDesc row);
                          cartItemPrice :=
                            parseFloat (replace (str "$") [] (orEmpty (rowPrice row)));
                          quantity := ofZ 1 |}) (cartItems c))
    by (unfold CartPage.getCartItems; now rewrite getCartItems_loop_spec).
  assert (Hlen : length (CartPage.getCartItems c) = length (cartItems c))
    by (rewrite E; apply length_map).
  split; [exact Hlen |]. split; [| split; [| split]].
  - rewrite E. apply Forall_map, Forall_forall. intros row _. cbn [quantity].
    vm_compute. reflexivity.
  - unfold CartPage.getCartItemCount. now rewrite Hlen.
  - unfold CartPage.getCartItemCount. apply ofZ_nonneg. lia.
  - intros Hsmall. unfold CartPage.getCartItemCount. rewrite Hlen.
    apply ofZ_exact. lia.
Qed.

Lemma cart_count_is_number_of_items_witness :
  let row := {| rowName := Some (str "Sauce Labs Onesie");
                rowDesc := Some (str "Rib snap infant onesie");
                rowPrice := Some (str "$7.99") |} in
  let c := {| cartItems := [row; row]; itemNames := [rowName row; rowName row] |} in
  Z.of_nat (length (cartItems c)) < 2 ^ 53
  /\ CartPage.getCartItemCount c = Fin (2 * 2 ^ unit_exp).
Proof.
  intros row c.
  assert (H : Z.of_nat (length (cartItems c)) < 2 ^ 53) by reflexivity.
  destruct (cart_count_is_number_of_items c) as (_ & _ & _ & _ & Hexact).
  split; [exact H | exact (Hexact H)].
Defined.

(* ===================================================================== *)
(** * The cart scenarios *)
(* ===================================================================== *)

Lemma getCartItemNames_spec (c : cart) :
  CartPage.getCartItemNames c = concat (map nameOf (itemNames c)).
Proof.
  unfold CartPage.getCartItemNames.
  assert (H : forall texts names,
            CartPage.getCartItemNames_loop texts names
            = names ++ concat (map nameOf texts)).
  { induction texts as [|t texts IH]; intros names; cbn [map concat].
    - now rewrite app_nil_r.
    - cbn [CartPage.getCartItemNames_loop]. rewrite IH. unfold nameOf, push.
      destruct (truthy t); cbn [app]; [now rewrite <- app_assoc | reflexivity]. }
  apply H.
Qed.

Lemma toContain_iff (received : list jsstring) (x : jsstring) :
  CheckoutSpec.toContain received x = true <-> In x received.
Proof.
  unfold CheckoutSpec.toContain. rewrite existsb_exists. split.
  - intros (r & Hr & E). apply streq_eq in E. now subst.
  - intros H. exists x. split; [assumption | now apply streq_eq].
Qed.

Lemma TC_06_iff (c : cart) (CART_PRODUCTS : list jsstring) :
  CheckoutSpec.TC_06 c CART_PRODUCTS = true
  <-> length (CartPage.getCartItemNames c) = length CART_PRODUCTS
      /\ incl CART_PRODUCTS (CartPage.getCartItemNames c).
Proof.
  unfold CheckoutSpec.TC_06, CheckoutSpec.toHaveLength.
  rewrite andb_true_iff, Nat.eqb_eq, forallb_forall. unfold incl.
  split; intros [Hlen H]; (split; [assumption |]); intros x Hx;
    apply toContain_iff; now apply H.
Qed.

(** X13. TC_06 passes whenever the cart shows the added names in any order.
    When no name was added twice it passes only then: the equal length and
    the containment of every added name make the names in the cart a
    permutation of the added ones.  The names read from the cart are
    trimmed, so an added name with white space at either end is never found
    and the scenario fails. *)
Theorem cart_scenario_is_permutation (c : cart) (CART_PRODUCTS : list jsstring) :
  (Permutation (CartPage.getCartItemNames c) CART_PRODUCTS ->
   CheckoutSpec.TC_06 c CART_PRODUCTS = true)
  /\ (NoDup CART_PRODUCTS ->
      CheckoutSpec.TC_06 c CART_PRODUCTS = true ->
      Permutation (CartPage.getCartItemNames c) CART_PRODUCTS)
  /\ (forall x : jsstring,
        x ∈ CART_PRODUCTS -> trim x <> x ->
        CheckoutSpec.TC_06 c CART_PRODUCTS = false).
Proof.
  split; [| split].
  - intros Hperm. apply TC_06_iff. split.
    + now apply Permutation_length.
    + intros x Hx. eapply Permutation_in; [symmetry; exact Hperm | exact Hx].
  - intros Hnd H. apply TC_06_iff in H as [Hlen Hincl].
    symmetry. apply NoDup_Permutation_bis; [| lia | assumption].
    now apply NoDup_ListNoDup.
  - intros x Hx Htrim. apply not_true_is_false. intros H.
    apply TC_06_iff in H as [_ Hincl].
    apply list_elem_of_In in Hx. apply Hincl in Hx.
    rewrite getCartItemNames_spec, concat_nameOf in Hx.
    apply in_map_iff in Hx as (t & <- & _).
    apply Htrim, trim_idem.
Qed.

Lemma cart_scenario_is_permutation_witness :
  let c := {| cartItems := [];
              itemNames := [Some (str "Sauce Labs Onesie");
                            Some (str " Sauce Labs Backpack ")] |} in
  let added := [str "Sauce Labs Backpack"; str "Sauce Labs Onesie"] in
  NoDup added
  /\ CheckoutSpec.TC_06 c added = true
  /\ Permutation (CartPage.getCartItemNames c) added
  /\ CheckoutSpec.TC_06 c [str "Sauce Labs Onesie"; str "Sauce Labs Onesie"] = true
  /\ CheckoutSpec.TC_06 c [str "Sauce Labs Onesie"; str " Sauce Labs Backpack "]
     = false.
Proof.
  intros c added.
  assert (Hnd : NoDup added).
  { apply NoDup_cons. split; [| apply NoDup_singleton].
    intros H. apply list_elem_of_singleton in H. discriminate H. }
  assert (Hpass : CheckoutSpec.TC_06 c added = true) by reflexivity.
  destruct (cart_scenario_is_permutation c added) as (_ & Hperm & _).
  destruct (cart_scenario_is_permutation c
              [str "Sauce Labs Onesie"; str " Sauce Labs Backpack "])
    as (_ & _ & Hblank).
  split; [exact Hnd |]. split; [exact Hpass |].
  split; [exact (Hperm Hnd Hpass) |]. split; [reflexivity |].
  apply (Hblank (str " Sauce Labs Backpack ")).
  - apply list_elem_of_further, list_elem_of_here.
  - discriminate.
Defined.

(* ===================================================================== *)
(** * Prices with a separator *)
(* ===================================================================== *)

(** [parseFloat] on digits followed by a code unit that is no digit, no [.]
    and no exponent letter: the number stops there. *)
Lemma parseFloat_integer (ip : jsstring) (c : char) (rest : jsstring) :
  ip <> [] -> forallb isDigit ip = true ->
  isDigit c = false -> c <> 46 -> c <> 101 -> c <> 69 ->
  parseFloat (ip ++ c :: rest) = ofZ (digitsValue ip).
Proof.
  intros Hne Hip Hc H46 H101 H69.
  assert (Hhead : exists c0 ip', ip = c0 :: ip' /\ 48 <= c0 <= 57).
  { destruct ip as [|c0 ip']; [congruence |]. exists c0, ip'.
    split; [reflexivity |]. cbn [forallb] in Hip.
    apply andb_true_iff in Hip as [Hc0 _]. now apply isDigit_bounds. }
  destruct Hhead as (c0 & ip' & Eip & Hb).
  assert (Hc0 : isDigit c0 = true) by now apply isDigit_bounds.
  destruct (takeWhile_app_stop isDigit ip (c :: rest) Hip) as [T1 D1];
    [cbn; now rewrite Hc |].
  set (t := ip ++ c :: rest) in *.
  assert (Et : t = c0 :: ip' ++ c :: rest) by (unfold t; now rewrite Eip).
  assert (Etrim : trimStart t = t).
  { rewrite Et. unfold trimStart. cbn [dropWhile].
    now rewrite (digit_not_whitespace c0 Hc0). }
  assert (Esign : splitSign t = (false, t)).
  { rewrite Et. cbn [splitSign].
    replace (c0 =? 45) with false by (symmetry; apply Z.eqb_neq; lia).
    replace (c0 =? 43) with false by (symmetry; apply Z.eqb_neq; lia).
    reflexivity. }
  assert (Einf : startsWith (str "Infinity") t = false).
  { rewrite Et. change (str "Infinity") with (73 :: str "nfinity").
    cbn [startsWith].
    replace (73 =? c0) with false by (symmetry; apply Z.eqb_neq; lia).
    reflexivity. }
  unfold parseFloat. rewrite Etrim, Esign, Einf, T1, D1.
  replace (c =? 46) with false by (symmetry; apply Z.eqb_neq; lia).
  cbn [exponentPart].
  replace (c =? 101) with false by (symmetry; apply Z.eqb_neq; lia).
  replace (c =? 69) with false by (symmetry; apply Z.eqb_neq; lia).
  cbn [orb length]. rewrite app_nil_r.
  destruct ip as [|d ds]; [congruence | reflexivity].
Qed.

(** X14. [parseFloat] stops at the first character that cannot continue a
    number, so a price written with a thousands separator is read as the
    digits in front of the separator: whatever follows the [,], the price of
    the [Product] is that integer. *)
Theorem getProducts_stops_at_separator (p : page) (i : nat) (it : item)
    (whole rest : jsstring) :
  productItems p !! i = Some it ->
  itemPrice it = Some (36 :: whole ++ 44 :: rest) ->
  whole <> [] -> forallb isDigit whole = true ->
  exists prod : Product,
    InventoryPage.getProducts p !! i = Some prod
    /\ price prod = ofZ (digitsValue whole).
Proof.
  intros Hit Hprice Hne Hw. exists (productOf it).
  rewrite getProducts_spec, list_lookup_fmap, Hit. split; [reflexivity |].
  unfold productOf. cbn [price]. rewrite Hprice. cbn [orEmpty].
  change (str "$") with [36]. rewrite replace_unfold. cbn [startsWith].
  replace (36 =? 36) with true by reflexivity. cbn [andb app length drop].
  rewrite drop_0. apply parseFloat_integer; try assumption; try lia.
  reflexivity.
Qed.

Lemma getProducts_stops_at_separator_witness :
  let p := pageWithItem (Some (str "$1,299.99")) in
  str "1" <> []
  /\ forallb isDigit (str "1") = true
  /\ (exists prod,
         InventoryPage.getProducts p !! 0%nat = Some prod /\ price prod = one)
  /\ InventoryPage.areProductsSortedByPriceLowToHigh
       (pageOf [] ["$1,299.99"; "$999.99"]%string) = true.
Proof.
  intros p.
  assert (Hne : str "1" <> []) by discriminate.
  split; [exact Hne |]. split; [reflexivity |]. split.
  - destruct (getProducts_stops_at_separator p 0%nat _ (str "1") (str "299.99")
                eq_refl eq_refl Hne eq_refl) as (prod & Hprod & Hprice).
    exists prod. split; [exact Hprod |]. rewrite Hprice. vm_compute. reflexivity.
  - vm_compute. reflexivity.
Defined.

(* ===================================================================== *)
(** * Screenshots *)
(* ===================================================================== *)

(** X15. [takeScreenshot] writes under [./reports/screenshots/], to a file
    ending in [.png], and two calls write to the same file only when they
    are given the same name: the screenshots the sorting scenarios take
    before and after sorting do not overwrite one another. *)
Theorem screenshotPath_injective (name1 name2 : jsstring) :
  (BasePage.screenshotPath name1 = BasePage.screenshotPath name2 <-> name1 = name2)
  /\ startsWith (str "./reports/screenshots/") (BasePage.screenshotPath name1) = true
  /\ (exists stem, BasePage.screenshotPath name1 = stem ++ str ".png")
  /\ NoDup (map BasePage.screenshotPath
              [str "before_sort_za"; str "after_sort_za";
               str "before_sort_price_high_low"; str "after_sort_price_high_low"]).
Proof.
  unfold BasePage.screenshotPath. split; [| split; [| split]].
  - split; [| now intros ->].
    intros H. apply app_inv_head in H. now apply app_inv_tail in H.
  - apply startsWith_iff. now eexists.
  - eexists. now rewrite app_assoc.
  - apply NoDup_ListNoDup. repeat constructor; cbn; intros H;
      repeat (destruct H as [H | H]; [discriminate H |]); exact H.
Qed.
